(** * gha: GitHub Actions workflows generated from Dagger pipelines

    A shallow embedding of [main.go]: the [Settings], [Pipeline] and [Gha]
    structures, the pipeline factory, the secret-name check, the pre-flight
    command line, the step builders, [asWorkflow], and the two fan-out
    operations [Gha.Check] and [Gha.Config].

    Go strings are byte strings: [string].  A Go [map[string]string] is a
    [gmap string string]; the assignment [env[k] = v] is [<[k:=v]> env].
    A slice or map that may be [nil] is an [option], [None] being [nil]. *)

From Stdlib Require Import Ascii.
From stdpp Require Import base option list gmap fin_maps strings pretty.

(** ** Strings *)

Module Strings.

(** [strings.ToUpper] on ASCII text: the bytes ['a'..'z'] move to
    ['A'..'Z'], every other byte is kept.  The source applies it to the
    entries of [githubContextKeys] only, which are ASCII. *)
Definition upperByte (c : ascii) : ascii :=
  let n := nat_of_ascii c in
  if (97 <=? n)%nat && (n <=? 122)%nat then ascii_of_nat (n - 32) else c.

Fixpoint ToUpper (s : string) : string :=
  match s with
  | EmptyString => EmptyString
  | String c s' => String (upperByte c) (ToUpper s')
  end.

(** [strings.Join(elems, sep)] *)
Fixpoint Join (elems : list string) (sep : string) : string :=
  match elems with
  | [] => ""
  | [e] => e
  | e :: rest => e +:+ sep +:+ Join rest sep
  end.

(** The newline byte, Go's ["\n"]. *)
Definition LF : string := String (ascii_of_nat 10) EmptyString.

(** [strings.SplitN(s, " ", 2)[0]]: the text before the first space. *)
Fixpoint beforeSpace (s : string) : string :=
  match s with
  | EmptyString => EmptyString
  | String c s' =>
      if decide (c = " "%char) then EmptyString else String c (beforeSpace s')
  end.

End Strings.

(** [fmt.Sprintf] for the format [%s<lit1>%d<lit2>], the shape of every
    file-name format in [Gha.Config]; [%d] is the decimal numeral. *)
Definition Sprintf_s_d (lit1 lit2 : string) (s : string) (d : nat) : string :=
  s +:+ lit1 +:+ pretty d +:+ lit2.

(** [fmt.Sprintf] for the format [<lit1>%s<lit2>], the shape of the two
    reference expressions of [callDaggerStep]. *)
Definition Sprintf_s (lit1 lit2 : string) (s : string) : string :=
  lit1 +:+ s +:+ lit2.

(** ** Regular expressions

    [regexp.MustCompile] and [MatchString], for patterns built from byte
    classes, concatenation, alternation and repetition, matched by
    derivatives.  A pattern between [^] and [$] (no flags) has to match the
    whole text, which is what [MatchString] computes here. *)

Module Regexp.

Inductive t :=
| Never
| Empty
| Class (ranges : list (ascii * ascii))
| Cat (r1 r2 : t)
| Alt (r1 r2 : t)
| Star (r : t).

(** [r+] *)
Definition Plus (r : t) : t := Cat r (Star r).

Definition inRange (c : ascii) (range : ascii * ascii) : bool :=
  (nat_of_ascii range.1 <=? nat_of_ascii c)%nat
  && (nat_of_ascii c <=? nat_of_ascii range.2)%nat.

Definition inClass (ranges : list (ascii * ascii)) (c : ascii) : bool :=
  existsb (inRange c) ranges.

Fixpoint nullable (r : t) : bool :=
  match r with
  | Never => false
  | Empty => true
  | Class _ => false
  | Cat r1 r2 => nullable r1 && nullable r2
  | Alt r1 r2 => nullable r1 || nullable r2
  | Star _ => true
  end.

Fixpoint deriv (c : ascii) (r : t) : t :=
  match r with
  | Never => Never
  | Empty => Never
  | Class ranges => if inClass ranges c then Empty else Never
  | Cat r1 r2 =>
      if nullable r1
      then Alt (Cat (deriv c r1) r2) (deriv c r2)
      else Cat (deriv c r1) r2
  | Alt r1 r2 => Alt (deriv c r1) (deriv c r2)
  | Star r1 => Cat (deriv c r1) (Star r1)
  end.

(** Whole-text match of [^r$]. *)
Fixpoint MatchString (r : t) (s : string) : bool :=
  match s with
  | EmptyString => nullable r
  | String c s' => MatchString (deriv c r) s'
  end.

End Regexp.

(** ** Data model *)

Record Settings := mkSettings {
  PublicToken : string;
  DaggerVersion : string;
  NoTraces : bool;
  StopEngine : bool;
  AsJson : bool;
  Runner : string;
}.

(** The assignment [s.Runner = runner]. *)
Definition set_Runner (s : Settings) (runner : string) : Settings :=
  {| PublicToken := PublicToken s;
     DaggerVersion := DaggerVersion s;
     NoTraces := NoTraces s;
     StopEngine := StopEngine s;
     AsJson := AsJson s;
     Runner := runner |}.

(** The Go fields [Module] and [Settings] of [Pipeline] are [p_Module] and
    [p_Settings] here ([Module] is a keyword, [Settings] is the type);
    the other fields follow suit. *)
Record Pipeline := mkPipeline {
  p_Module : string;
  p_Command : string;
  p_Secrets : list string;
  p_SparseCheckout : option (list string);
  p_Settings : Settings;
}.

(** The assignment [p.Settings = s]. *)
Definition set_p_Settings (p : Pipeline) (s : Settings) : Pipeline :=
  {| p_Module := p_Module p;
     p_Command := p_Command p;
     p_Secrets := p_Secrets p;
     p_SparseCheckout := p_SparseCheckout p;
     p_Settings := s |}.

(** The four trigger types are declared outside [main.go], which reads
    their [Pipeline] field and calls their [Config] method.  [C] is the
    trigger-specific condition data, opaque here. *)
Record Trigger (C : Type) := mkTrigger {
  t_Pipeline : Pipeline;
  t_On : C;
}.
Arguments mkTrigger {C} _ _.
Arguments t_Pipeline {C} _.
Arguments t_On {C} _.

Record Gha (PushC PullRequestC DispatchC IssueCommentC : Type) := mkGha {
  PushTriggers : list (Trigger PushC);
  PullRequestTriggers : list (Trigger PullRequestC);
  DispatchTriggers : list (Trigger DispatchC);
  IssueCommentTriggers : list (Trigger IssueCommentC);
  g_Settings : Settings;
}.
Arguments mkGha {PushC PullRequestC DispatchC IssueCommentC} _ _ _ _ _.
Arguments PushTriggers {PushC PullRequestC DispatchC IssueCommentC} _.
Arguments PullRequestTriggers {PushC PullRequestC DispatchC IssueCommentC} _.
Arguments DispatchTriggers {PushC PullRequestC DispatchC IssueCommentC} _.
Arguments IssueCommentTriggers {PushC PullRequestC DispatchC IssueCommentC} _.
Arguments g_Settings {PushC PullRequestC DispatchC IssueCommentC} _.

(** [func New(noTraces, publicToken, daggerVersion, stopEngine, asJson, runner)] *)
Definition New {PushC PullRequestC DispatchC IssueCommentC : Type}
    (noTraces : bool) (publicToken daggerVersion : string)
    (stopEngine asJson : bool) (runner : string)
  : Gha PushC PullRequestC DispatchC IssueCommentC :=
  {| PushTriggers := [];
     PullRequestTriggers := [];
     DispatchTriggers := [];
     IssueCommentTriggers := [];
     g_Settings := {| PublicToken := publicToken;
                      NoTraces := noTraces;
                      DaggerVersion := daggerVersion;
                      StopEngine := stopEngine;
                      AsJson := asJson;
                      Runner := runner |} |}.

(** [func (m *Gha) pipeline(command, module, runner, secrets, sparseCheckout)] *)
Definition pipeline {PushC PullRequestC DispatchC IssueCommentC : Type}
    (m : Gha PushC PullRequestC DispatchC IssueCommentC)
    (command module runner : string)
    (secrets : list string) (sparseCheckout : option (list string)) : Pipeline :=
  let p := {| p_Command := command;
              p_Module := module;
              p_Secrets := secrets;
              p_SparseCheckout := sparseCheckout;
              p_Settings := g_Settings m |} in
  if decide (runner ≠ "")
  then set_p_Settings p (set_Runner (p_Settings p) runner)
  else p.

(** [func (p *Pipeline) Name()] *)
Definition Name (p : Pipeline) : string := Strings.beforeSpace (p_Command p).

(** ** Errors *)

(** A Go [error] value, identified by its message: [errors.New msg]. *)
Inductive error := errors_New (msg : string).

Definition Error (e : error) : string := let 'errors_New msg := e in msg.

(** ** Secret names *)

(** [regexp.MustCompile(`^[a-zA-Z0-9_]+$`)] *)
Definition validName : Regexp.t :=
  Regexp.Plus (Regexp.Class [("a", "z"); ("A", "Z"); ("0", "9"); ("_", "_")]%char).

Definition invalidSecretName (secretName : string) : error :=
  errors_New ("invalid secret name: '" +:+ secretName
              +:+ "' must contain only alphanumeric characters and underscores").

(** The loop of [checkSecretNames] over the remaining secrets. *)
Fixpoint checkSecretNames_loop (secrets : list string) : option error :=
  match secrets with
  | [] => None
  | secretName :: rest =>
      if negb (Regexp.MatchString validName secretName)
      then Some (invalidSecretName secretName)
      else checkSecretNames_loop rest
  end.

(** [func (p *Pipeline) checkSecretNames() error]; [None] is [nil]. *)
Definition checkSecretNames (p : Pipeline) : option error :=
  checkSecretNames_loop (p_Secrets p).

(** ** Pre-flight command line *)

(** The [script] variable of [checkCommandAndModule], as it stands when it
    is handed to [bash -c]. *)
Definition checkCommandAndModule_script (p : Pipeline) : string :=
  let script := "dagger call" in
  let script :=
    if decide (p_Module p ≠ "")
    then script +:+ " -m '" +:+ p_Module p +:+ "' "
    else script in
  script +:+ p_Command p +:+ " --help".

(** ** The environment of the execute step *)

(** List of keys available as [${{github.KEY}}]. *)
Definition githubContextKeys : list string :=
  ["action"; "action_path"; "action_ref"; "action_repository";
   "action_status"; "actor"; "actor_id"; "api_url"; "base_ref"; "env";
   "event_name"; "event_path"; "graphql_url"; "head_ref"; "job"; "path";
   "ref"; "ref_name"; "ref_protected"; "ref_type"; "repository";
   "repository_id"; "repository_owner"; "repository_owner_id";
   "repositoryUrl"; "retention_days"; "run_id"; "run_number"; "run_attempt";
   "secret_source"; "server_url"; "sha"; "token"; "triggering_actor";
   "workflow"; "workflow_ref"; "workflow_sha"; "workspace"].

(** [fmt.Sprintf("${{ secrets.%s }}", secretName)] *)
Definition secretRef (secretName : string) : string :=
  Sprintf_s "${{ secrets." " }}" secretName.

(** [fmt.Sprintf("${{ github.%s }}", key)] *)
Definition githubRef (key : string) : string :=
  Sprintf_s "${{ github." " }}" key.

(** ["GITHUB_"+strings.ToUpper(key)] *)
Definition githubVar (key : string) : string :=
  "GITHUB_" +:+ Strings.ToUpper key.

(** The map [env] of [callDaggerStep], statement by statement, as it stands
    when it is handed to [bashStep]. *)
Definition callDaggerEnv (p : Pipeline) : gmap string string :=
  let env : gmap string string := ∅ in
  (* Inject dagger command *)
  let env := <["COMMAND" := "dagger call -q " +:+ p_Command p]> env in
  (* Inject user-defined secrets *)
  let env :=
    foldl (λ env secretName, <[secretName := secretRef secretName]> env)
          env (p_Secrets p) in
  (* Inject module name *)
  let env :=
    if decide (p_Module p ≠ "")
    then <["DAGGER_MODULE" := p_Module p]> env
    else env in
  (* Inject Dagger Cloud token *)
  let env :=
    if negb (NoTraces (p_Settings p)) then
      if decide (PublicToken (p_Settings p) ≠ "") then
        let env := <["DAGGER_CLOUD_TOKEN" := PublicToken (p_Settings p)]> env in
        <["_EXPERIMENTAL_DAGGER_CLOUD_TOKEN" := PublicToken (p_Settings p)]> env
      else
        let env := <["DAGGER_CLOUD_TOKEN" := "${{ secrets.DAGGER_CLOUD_TOKEN }}"]> env in
        <["_EXPERIMENTAL_DAGGER_CLOUD_TOKEN" := "${{ secrets.DAGGER_CLOUD_TOKEN }}"]> env
    else env in
  (* Inject Github context keys *)
  foldl (λ env key, <[githubVar key := githubRef key]> env)
        env githubContextKeys.

(** The five groups of entries the statements above assign, in the order of
    the statements.  Each entry is a key and the value assigned to it. *)
Definition commandEntries (p : Pipeline) : list (string * string) :=
  [("COMMAND", "dagger call -q " +:+ p_Command p)].

Definition secretEntries (p : Pipeline) : list (string * string) :=
  (λ secretName, (secretName, secretRef secretName)) <$> p_Secrets p.

Definition moduleEntries (p : Pipeline) : list (string * string) :=
  if decide (p_Module p ≠ "") then [("DAGGER_MODULE", p_Module p)] else [].

Definition cloudTokenEntries (p : Pipeline) : list (string * string) :=
  if negb (NoTraces (p_Settings p)) then
    if decide (PublicToken (p_Settings p) ≠ "") then
      [("DAGGER_CLOUD_TOKEN", PublicToken (p_Settings p));
       ("_EXPERIMENTAL_DAGGER_CLOUD_TOKEN", PublicToken (p_Settings p))]
    else
      [("DAGGER_CLOUD_TOKEN", "${{ secrets.DAGGER_CLOUD_TOKEN }}");
       ("_EXPERIMENTAL_DAGGER_CLOUD_TOKEN", "${{ secrets.DAGGER_CLOUD_TOKEN }}")]
  else [].

Definition githubContextEntries : list (string * string) :=
  (λ key, (githubVar key, githubRef key)) <$> githubContextKeys.

(** The groups other than the secrets. *)
Definition fixedEntries (p : Pipeline) : list (string * string) :=
  commandEntries p ++ moduleEntries p ++ cloudTokenEntries p
  ++ githubContextEntries.

(** Two groups are disjoint when no key of one is a key of the other. *)
Definition disjointKeys (g1 g2 : list (string * string)) : Prop :=
  ∀ k, k ∈ g1.*1 → k ∈ g2.*1 → False.

(** No entry of [g] is overwritten in [env]: every key of [g] still holds
    the value [g] assigned to it. *)
Definition kept (env : gmap string string) (g : list (string * string)) : Prop :=
  Forall (λ kv, env !! kv.1 = Some kv.2) g.

(** The assignment [env[k] = v], and the entries of the five groups in the
    order they are assigned. *)
Definition assign (env : gmap string string) (kv : string * string)
  : gmap string string :=
  <[kv.1 := kv.2]> env.

Definition allEntries (p : Pipeline) : list (string * string) :=
  commandEntries p ++ secretEntries p ++ moduleEntries p
  ++ cloudTokenEntries p ++ githubContextEntries.

(** ** The workflow document

    [JobStep], [Job], [Workflow] and [WorkflowTriggers] are declared outside
    [main.go]; the records below have the fields [main.go] assigns, an unset
    string field being [""] and an unset map [None]. *)

Record JobStep := mkJobStep {
  js_Name : string;
  js_ID : string;
  js_Uses : string;
  js_Shell : string;
  js_Run : string;
  js_With : option (gmap string string);
  js_Env : option (gmap string string);
}.

Record Job := mkJob {
  RunsOn : string;
  Steps : list JobStep;
  Outputs : gmap string string;
}.

(** Modelled from the spec: the declaration of [WorkflowTriggers] is not in
    [main.go]; the [on:] section holds one optional, opaque condition per
    trigger kind, and [WorkflowTriggers{}] has none of them. *)
Record WorkflowTriggers := mkWorkflowTriggers {
  on_Push : option string;
  on_PullRequest : option string;
  on_WorkflowDispatch : option string;
  on_IssueComment : option string;
}.

Definition noTriggers : WorkflowTriggers :=
  {| on_Push := None; on_PullRequest := None;
     on_WorkflowDispatch := None; on_IssueComment := None |}.

Record Workflow := mkWorkflow {
  w_Name : string;
  w_On : WorkflowTriggers;
  w_Jobs : gmap string Job;
}.

(** ** Reading the module's scripts

    [bashStep] reads [scripts/<id>.sh] from the source of the running module
    and panics when the read fails.  The world of a compilation is the
    module source together with the log of the reads made so far; a
    computation returns [None] when it has panicked. *)

Record ModuleSource := mkModuleSource {
  files : gmap string string;
  reads : list string;
}.

Definition Compile (A : Type) : Type := ModuleSource → option A * ModuleSource.

Definition ret {A} (a : A) : Compile A := λ w, (Some a, w).

Definition bind {A B} (c : Compile A) (k : A → Compile B) : Compile B :=
  λ w, match c w with
       | (Some a, w') => k a w'
       | (None, w') => (None, w')
       end.

Notation "'let*' x ':=' c1 'in' c2" := (bind c1 (λ x, c2))
  (at level 10, x name, c1 at level 100, c2 at level 200).

(** [dag.CurrentModule().Source().File(filename).Contents(ctx)], followed by
    [panic(err)] when it fails. *)
Definition Contents (filename : string) : Compile string :=
  λ w, (files w !! filename,
        {| files := files w; reads := reads w ++ [filename] |}).

(** ** Step builders *)

(** [func (p *Pipeline) bashStep(id string, env map[string]string) JobStep] *)
Definition bashStep (p : Pipeline) (id : string)
    (env : option (gmap string string)) : Compile JobStep :=
  let filename := "scripts/" +:+ id +:+ ".sh" in
  let* script := Contents filename in
  ret {| js_Name := filename;
         js_ID := id;
         js_Uses := "";
         js_Shell := "bash";
         js_Run := script;
         js_With := None;
         js_Env := env |}.

(** [func (p *Pipeline) checkoutStep() JobStep] *)
Definition checkoutStep (p : Pipeline) : JobStep :=
  let step := {| js_Name := "Checkout";
                 js_ID := "";
                 js_Uses := "actions/checkout@v4";
                 js_Shell := "";
                 js_Run := "";
                 js_With := None;
                 js_Env := None |} in
  match p_SparseCheckout p with
  | Some paths =>
      let sparseCheckout := paths ++ ["dagger.json"; ".dagger"; "dagger"; "ci"] in
      {| js_Name := js_Name step;
         js_ID := js_ID step;
         js_Uses := js_Uses step;
         js_Shell := js_Shell step;
         js_Run := js_Run step;
         js_With := Some {[ "sparse-checkout" := Strings.Join sparseCheckout Strings.LF ]};
         js_Env := js_Env step |}
  | None => step
  end.

(** [func (p *Pipeline) warmEngineStep() JobStep] *)
Definition warmEngineStep (p : Pipeline) : Compile JobStep :=
  bashStep p "warm-engine" None.

(** [func (p *Pipeline) installDaggerStep() JobStep] *)
Definition installDaggerStep (p : Pipeline) : Compile JobStep :=
  bashStep p "install-dagger"
    (Some {[ "DAGGER_VERSION" := DaggerVersion (p_Settings p) ]}).

(** [func (p *Pipeline) callDaggerStep() JobStep] *)
Definition callDaggerStep (p : Pipeline) : Compile JobStep :=
  bashStep p "exec" (Some (callDaggerEnv p)).

(** [func (p *Pipeline) stopEngineStep() JobStep] *)
Definition stopEngineStep (p : Pipeline) : Compile JobStep :=
  bashStep p "scripts/stop-engine.sh" None.

(** [func (p *Pipeline) asWorkflow() Workflow] *)
Definition asWorkflow (p : Pipeline) : Compile Workflow :=
  let* step1 := ret (checkoutStep p) in
  let* step2 := installDaggerStep p in
  let* step3 := warmEngineStep p in
  let* step4 := callDaggerStep p in
  let steps := [step1; step2; step3; step4] in
  let* steps :=
    if StopEngine (p_Settings p)
    then let* step5 := stopEngineStep p in ret (steps ++ [step5])
    else ret steps in
  ret {| w_Name := p_Command p;
         w_On := noTriggers;
         w_Jobs :=
           {[ "dagger" :=
                {| RunsOn := Runner (p_Settings p);
                   Steps := steps;
                   Outputs :=
                     <["stderr" := "${{ steps.exec.outputs.stderr }}"]>
                       {[ "stdout" := "${{ steps.exec.outputs.stdout }}" ]} |} ]} |}.

(** ** Pre-flight validation

    The container runtime is outside [main.go].  [Directory] is the type of
    directory handles, [World] the state of the runtime, and [Sync] runs a
    container to completion: it returns the error of the run, if any, and
    the state it leaves behind. *)

Record Container (Directory : Type) := mkContainer {
  Packages : list string;
  MountedDirectory : string * Directory;
  Workdir : string;
  Exec : list string;
  ExperimentalPrivilegedNesting : bool;
}.
Arguments mkContainer {Directory} _ _ _ _ _.
Arguments Packages {Directory} _.
Arguments MountedDirectory {Directory} _.
Arguments Workdir {Directory} _.
Arguments Exec {Directory} _.
Arguments ExperimentalPrivilegedNesting {Directory} _.

Section Validation.

Context {Directory World : Type}.
Context (Sync : Container Directory → World → option error * World).

(** [func (p *Pipeline) checkCommandAndModule(ctx, repo) error] *)
Definition checkCommandAndModule (p : Pipeline) (repo : Directory)
  : World → option error * World :=
  let script := checkCommandAndModule_script p in
  Sync {| Packages := ["dagger"; "bash"];
          MountedDirectory := ("/src", repo);
          Workdir := "/src";
          Exec := ["bash"; "-c"; script];
          ExperimentalPrivilegedNesting := true |}.

(** [func (p *Pipeline) Check(ctx, repo) error] *)
Definition Pipeline_Check (p : Pipeline) (repo : Directory)
  : World → option error * World :=
  λ w,
    match checkSecretNames p with
    | Some err => (Some err, w)
    | None =>
        match checkCommandAndModule p repo w with
        | (Some err, w') => (Some err, w')
        | (None, w') => (None, w')
        end
    end.

(** One [for _, t := range ...] loop of [Gha.Check]: [Some err] when the
    loop leaves the function with [return m, err], [None] when it runs to
    its end. *)
Fixpoint Check_loop {C} (triggers : list (Trigger C)) (repo : Directory)
  : World → option error * World :=
  λ w,
    match triggers with
    | [] => (None, w)
    | t :: rest =>
        match Pipeline_Check (t_Pipeline t) repo w with
        | (Some err, w') => (Some err, w')
        | (None, w') => Check_loop rest repo w'
        end
    end.

(** [func (m *Gha) Check(ctx, repo)], which returns [m] and an error. *)
Definition Gha_Check {PushC PullRequestC DispatchC IssueCommentC : Type}
    (m : Gha PushC PullRequestC DispatchC IssueCommentC) (repo : Directory)
  : World → (Gha PushC PullRequestC DispatchC IssueCommentC * option error) * World :=
  λ w,
    match Check_loop (PushTriggers m) repo w with
    | (Some err, w) => ((m, Some err), w)
    | (None, w) =>
    match Check_loop (PullRequestTriggers m) repo w with
    | (Some err, w) => ((m, Some err), w)
    | (None, w) =>
    match Check_loop (DispatchTriggers m) repo w with
    | (Some err, w) => ((m, Some err), w)
    | (None, w) =>
    match Check_loop (IssueCommentTriggers m) repo w with
    | (Some err, w) => ((m, Some err), w)
    | (None, w) => ((m, None), w)
    end end end end.

End Validation.

(** ** Generating the configuration directory

    The directory API and the [Config] methods of the four trigger types are
    outside [main.go]: [dag_Directory] is the empty directory,
    [WithDirectory dir path d] overlays [d] on [dir] at [path], and
    [t.Config(filename, asJson)] renders trigger [t] into a directory. *)

Section Configuration.

Context {Directory PushC PullRequestC DispatchC IssueCommentC : Type}.
Context (dag_Directory : Directory).
Context (WithDirectory : Directory → string → Directory → Directory).
Context (PushTrigger_Config : Trigger PushC → string → bool → Directory).
Context (PullRequestTrigger_Config : Trigger PullRequestC → string → bool → Directory).
Context (DispatchTrigger_Config : Trigger DispatchC → string → bool → Directory).
Context (IssueCommentTrigger_Config : Trigger IssueCommentC → string → bool → Directory).

(** One [for i, t := range ...] loop of [Gha.Config], from index [i] on;
    the file-name format of the loop is [%s<kind>%d.yml]. *)
Fixpoint Config_loop {C} (Config : Trigger C → string → bool → Directory)
    (kind : string) (prefix : string) (asJson : bool)
    (triggers : list (Trigger C)) (i : nat) (dir : Directory) : Directory :=
  match triggers with
  | [] => dir
  | t :: rest =>
      let filename := Sprintf_s_d kind ".yml" prefix (i + 1) in
      let dir := WithDirectory dir "." (Config t filename asJson) in
      Config_loop Config kind prefix asJson rest (S i) dir
  end.

(** [func (m *Gha) Config(prefix string) *dagger.Directory] *)
Definition Gha_Config (m : Gha PushC PullRequestC DispatchC IssueCommentC)
    (prefix : string) : Directory :=
  let dir := dag_Directory in
  let dir := Config_loop PushTrigger_Config "push-" prefix
               (AsJson (g_Settings m)) (PushTriggers m) 0 dir in
  let dir := Config_loop PullRequestTrigger_Config "pr-" prefix
               (AsJson (g_Settings m)) (PullRequestTriggers m) 0 dir in
  let dir := Config_loop DispatchTrigger_Config "dispatch-" prefix
               (AsJson (g_Settings m)) (DispatchTriggers m) 0 dir in
  let dir := Config_loop IssueCommentTrigger_Config "issue-comment-" prefix
               (AsJson (g_Settings m)) (IssueCommentTriggers m) 0 dir in
  dir.

End Configuration.

(** The files [Gha.Config] asks for.  Each call [t.Config(filename, asJson)]
    is recorded as the pipeline of [t] with the two arguments, and
    overlaying two directories puts the records of the second after those of
    the first: the result lists, in order, the pipeline of each trigger, the
    name given to its file and the encoding requested for it. *)
Definition Rendering : Type := Pipeline * string * bool.

Definition recorded_Config {C} (t : Trigger C) (filename : string)
    (asJson : bool) : list Rendering :=
  [(t_Pipeline t, filename, asJson)].

Definition Gha_Config_renderings {PushC PullRequestC DispatchC IssueCommentC : Type}
    (m : Gha PushC PullRequestC DispatchC IssueCommentC) (prefix : string)
  : list Rendering :=
  Gha_Config [] (λ dir _ d, dir ++ d)
    recorded_Config recorded_Config recorded_Config recorded_Config m prefix.

(** The file names [Gha.Config] chooses, in order. *)
Definition Gha_Config_filenames {PushC PullRequestC DispatchC IssueCommentC : Type}
    (m : Gha PushC PullRequestC DispatchC IssueCommentC) (prefix : string)
  : list string :=
  (λ r : Rendering, r.1.2) <$> Gha_Config_renderings m prefix.

(** ** Notions used by the properties *)

(** The language of a pattern: the texts a whole-text match accepts. *)
Inductive lang : Regexp.t → string → Prop :=
| lang_Empty : lang Regexp.Empty ""
| lang_Class ranges c :
    Regexp.inClass ranges c = true → lang (Regexp.Class ranges) (String c "")
| lang_Cat r1 r2 s1 s2 :
    lang r1 s1 → lang r2 s2 → lang (Regexp.Cat r1 r2) (s1 +:+ s2)
| lang_Alt_l r1 r2 s : lang r1 s → lang (Regexp.Alt r1 r2) s
| lang_Alt_r r1 r2 s : lang r2 s → lang (Regexp.Alt r1 r2) s
| lang_Star_nil r : lang (Regexp.Star r) ""
| lang_Star_cons r s1 s2 :
    lang r s1 → lang (Regexp.Star r) s2 → lang (Regexp.Star r) (s1 +:+ s2).

(** The bytes of a text. *)
Fixpoint bytes (s : string) : list ascii :=
  match s with
  | EmptyString => []
  | String c s' => c :: bytes s'
  end.

(** The grammar of secret names in the words of the specification:
    non-empty, characters restricted to [[A-Za-z0-9_]]. *)
Definition nameByte (c : ascii) : Prop :=
  let n := nat_of_ascii c in
  65 ≤ n ≤ 90 ∨ 97 ≤ n ≤ 122 ∨ 48 ≤ n ≤ 57 ∨ n = 95.

Definition wellFormedName (s : string) : Prop :=
  s ≠ "" ∧ Forall nameByte (bytes s).

(** The five groups of the execute step's environment have pairwise
    disjoint keys. *)
Definition groupsDisjoint (p : Pipeline) : Prop :=
  disjointKeys (commandEntries p) (secretEntries p)
  ∧ disjointKeys (commandEntries p) (moduleEntries p)
  ∧ disjointKeys (commandEntries p) (cloudTokenEntries p)
  ∧ disjointKeys (commandEntries p) githubContextEntries
  ∧ disjointKeys (secretEntries p) (moduleEntries p)
  ∧ disjointKeys (secretEntries p) (cloudTokenEntries p)
  ∧ disjointKeys (secretEntries p) githubContextEntries
  ∧ disjointKeys (moduleEntries p) (cloudTokenEntries p)
  ∧ disjointKeys (moduleEntries p) githubContextEntries
  ∧ disjointKeys (cloudTokenEntries p) githubContextEntries.

(** The pipelines registered in an aggregator, in the order [Gha.Check]
    visits them. *)
Definition registered {PushC PullRequestC DispatchC IssueCommentC : Type}
    (m : Gha PushC PullRequestC DispatchC IssueCommentC) : list Pipeline :=
  (t_Pipeline <$> PushTriggers m) ++ (t_Pipeline <$> PullRequestTriggers m)
  ++ (t_Pipeline <$> DispatchTriggers m)
  ++ (t_Pipeline <$> IssueCommentTriggers m).

Section Passing.

Context {Directory World : Type}.
Context (Sync : Container Directory → World → option error * World).

(** [Checks_pass repo ps w w']: checked one after the other from state [w],
    every pipeline of [ps] passes, and the last check leaves state [w']. *)
Inductive Checks_pass (repo : Directory) : list Pipeline → World → World → Prop :=
| Checks_pass_nil w : Checks_pass repo [] w w
| Checks_pass_cons p ps w w1 w2 :
    Pipeline_Check Sync p repo w = (None, w1) →
    Checks_pass repo ps w1 w2 →
    Checks_pass repo (p :: ps) w w2.

(** The checks of a list of pipelines, one after the other, up to the first
    error: what the four loops of [Gha.Check] do over [registered m]. *)
Fixpoint Check_pipelines (repo : Directory) (ps : list Pipeline)
  : World → option error * World :=
  λ w,
    match ps with
    | [] => (None, w)
    | p :: rest =>
        match Pipeline_Check Sync p repo w with
        | (Some err, w') => (Some err, w')
        | (None, w') => Check_pipelines repo rest w'
        end
    end.

End Passing.

(** The runtime used in the examples: it logs the command of every
    container it runs, and a container fails when its command is in
    [failing]. *)
Definition logging_Sync (failing : list string)
    (c : Container unit) (w : list (list string))
  : option error * list (list string) :=
  (if decide (Exec c !! 2 ∈ Some <$> failing)
   then Some (errors_New "exit code: 1") else None,
   w ++ [Exec c]).


(** The file names of the specification for [n] triggers of one kind:
    [<prefix><kind>-<index><ext>] for the indices [1] to [n]. *)
Definition spec_kind_filenames (prefix kind ext : string) (n : nat) : list string :=
  (λ index, prefix +:+ kind +:+ "-" +:+ pretty index +:+ ext) <$> seq 1 n.

Definition spec_filenames {PushC PullRequestC DispatchC IssueCommentC : Type}
    (ext : string) (m : Gha PushC PullRequestC DispatchC IssueCommentC)
    (prefix : string) : list string :=
  spec_kind_filenames prefix "push" ext (length (PushTriggers m))
  ++ spec_kind_filenames prefix "pr" ext (length (PullRequestTriggers m))
  ++ spec_kind_filenames prefix "dispatch" ext (length (DispatchTriggers m))
  ++ spec_kind_filenames prefix "issue-comment" ext (length (IssueCommentTriggers m)).

(** The extension the specification gives a file: [.yml] by default,
    [.json] in JSON mode. *)
Definition spec_ext (asJson : bool) : string :=
  if asJson then ".json" else ".yml".

(** The sparse-checkout instruction a step carries, if any. *)
Definition sparseCheckoutOf (step : JobStep) : option string :=
  js_With step ≫= λ w, w !! "sparse-checkout".

(** The lines of a text, as [strings.Split(s, "\n")] cuts it: the pieces
    between the newline bytes, the empty text having one empty line. *)
Fixpoint lines (s : string) : list string :=
  match s with
  | EmptyString => [""]
  | String c s' =>
      if decide (c = ascii_of_nat 10) then "" :: lines s'
      else match lines s' with
           | [] => [String c ""]
           | l :: ls => String c l :: ls
           end
  end.

(** The step [bashStep] returns once it has read [script]. *)
Definition scriptStep (id script : string) (env : option (gmap string string))
  : JobStep :=
  {| js_Name := "scripts/" +:+ id +:+ ".sh";
     js_ID := id;
     js_Uses := "";
     js_Shell := "bash";
     js_Run := script;
     js_With := None;
     js_Env := env |}.

(** The document [asWorkflow] returns around the steps it has built. *)
Definition documentOf (p : Pipeline) (steps : list JobStep) : Workflow :=
  {| w_Name := p_Command p;
     w_On := noTriggers;
     w_Jobs :=
       {[ "dagger" :=
            {| RunsOn := Runner (p_Settings p);
               Steps := steps;
               Outputs :=
                 <["stderr" := "${{ steps.exec.outputs.stderr }}"]>
                   {[ "stdout" := "${{ steps.exec.outputs.stdout }}" ]} |} ]} |}.

(** The files [asWorkflow] asks the module source for, in the order it
    reads them. *)
Definition scriptsRead (p : Pipeline) : list string :=
  ["scripts/install-dagger.sh"; "scripts/warm-engine.sh"; "scripts/exec.sh"]
  ++ (if StopEngine (p_Settings p)
      then ["scripts/scripts/stop-engine.sh.sh"] else []).

(** The command of the container [checkCommandAndModule] runs. *)
Definition dryRunCommand (p : Pipeline) : list string :=
  ["bash"; "-c"; checkCommandAndModule_script p].

(** * Properties *)

(** ** Facts about strings *)

Lemma app_cons_string (c : ascii) (s1 s2 : string) :
  String c s1 +:+ s2 = String c (s1 +:+ s2).
Proof. reflexivity. Qed.

Lemma app_nil_l_string (s : string) : "" +:+ s = s.
Proof. reflexivity. Qed.

Lemma app_assoc_string (s1 s2 s3 : string) :
  (s1 +:+ s2) +:+ s3 = s1 +:+ s2 +:+ s3.
Proof.
  induction s1 as [| c s1 IH]; [done |].
  by rewrite !app_cons_string, IH.
Qed.

Lemma app_nil_r_string (s : string) : s +:+ "" = s.
Proof.
  induction s as [| c s IH]; [done |]. by rewrite app_cons_string, IH.
Qed.

Lemma bytes_app (s1 s2 : string) : bytes (s1 +:+ s2) = bytes s1 ++ bytes s2.
Proof.
  induction s1 as [| c s1 IH]; [done |].
  rewrite app_cons_string. simpl. by rewrite IH.
Qed.

Lemma bytes_inj (s1 s2 : string) : bytes s1 = bytes s2 → s1 = s2.
Proof.
  revert s2. induction s1 as [| c s1 IH]; intros [| c2 s2]; simpl; try done.
  intros [= -> H]. f_equal. by apply IH.
Qed.

(** Cancellation of a common suffix. *)
Lemma app_inv_tail_string (s1 s2 s : string) : s1 +:+ s = s2 +:+ s → s1 = s2.
Proof.
  intros H. apply bytes_inj. apply (f_equal bytes) in H.
  rewrite !bytes_app in H. by apply app_inv_tail in H.
Qed.

(** ** The pipeline factory *)

(** C10: the factory copies the aggregator's settings into the pipeline;
    with an empty runner override the copy is exact, with a non-empty one
    only [Runner] differs and holds the override. *)
Theorem pipeline_settings_frame {PushC PullRequestC DispatchC IssueCommentC : Type}
    (m : Gha PushC PullRequestC DispatchC IssueCommentC)
    (command module runner : string)
    (secrets : list string) (sparseCheckout : option (list string)) :
  let p := pipeline m command module runner secrets sparseCheckout in
  PublicToken (p_Settings p) = PublicToken (g_Settings m)
  ∧ DaggerVersion (p_Settings p) = DaggerVersion (g_Settings m)
  ∧ NoTraces (p_Settings p) = NoTraces (g_Settings m)
  ∧ StopEngine (p_Settings p) = StopEngine (g_Settings m)
  ∧ AsJson (p_Settings p) = AsJson (g_Settings m)
  ∧ (if decide (runner = "")
     then p_Settings p = g_Settings m
     else Runner (p_Settings p) = runner).
Proof.
  unfold pipeline. destruct (decide (runner ≠ "")) as [Hne | He].
  - rewrite decide_False by done. simpl. repeat split.
  - apply dec_stable in He. rewrite decide_True by done. simpl. repeat split.
Qed.

(** ** The pre-flight command line *)

(** C1, at the pipeline with an empty module and the command [build]: the
    command line handed to the shell is [dagger callbuild --help], with no
    space between the tool invocation and the command. *)
Theorem checkCommandAndModule_script_empty_module :
  checkCommandAndModule_script
    {| p_Module := ""; p_Command := "build"; p_Secrets := [];
       p_SparseCheckout := None;
       p_Settings := mkSettings "" "latest" false false false "ubuntu-latest" |}
  = "dagger callbuild --help".
Proof. reflexivity. Qed.

(** With a module, the pieces of the command line are separated. *)
Lemma checkCommandAndModule_script_module (p : Pipeline) :
  p_Module p ≠ "" →
  checkCommandAndModule_script p
  = "dagger call -m '" +:+ p_Module p +:+ "' " +:+ p_Command p +:+ " --help".
Proof.
  intros Hm. unfold checkCommandAndModule_script.
  rewrite decide_True by done. by rewrite !app_assoc_string.
Qed.

(** ** The checkout step *)


(** ** Patterns *)

Lemma app_eq_nil_string (s1 s2 : string) : s1 +:+ s2 = "" → s1 = "" ∧ s2 = "".
Proof. destruct s1; [done |]. by rewrite app_cons_string. Qed.

Lemma nullable_lang (r : Regexp.t) : Regexp.nullable r = true ↔ lang r "".
Proof.
  split.
  - induction r as [| | ranges | r1 IH1 r2 IH2 | r1 IH1 r2 IH2 | r IH]; simpl;
      intros H; try done.
    + constructor.
    + apply andb_prop in H as [H1 H2].
      change "" with ("" +:+ ""). constructor; auto.
    + apply orb_prop in H as [H | H].
      * apply lang_Alt_l; auto.
      * apply lang_Alt_r; auto.
    + constructor.
  - remember "" as s eqn:Hs. intros H.
    induction H as [| ranges c Hc | r1 r2 s1 s2 H1 IH1 H2 IH2
                    | r1 r2 s H IH | r1 r2 s H IH | r
                    | r s1 s2 H1 IH1 H2 IH2]; simpl; try done.
    + apply app_eq_nil_string in Hs as [-> ->]. by rewrite IH1, IH2.
    + by rewrite IH.
    + rewrite IH by done. apply orb_true_r.
Qed.

Lemma deriv_sound (c : ascii) (r : Regexp.t) (s : string) :
  lang (Regexp.deriv c r) s → lang r (String c s).
Proof.
  revert s.
  induction r as [| | ranges | r1 IH1 r2 IH2 | r1 IH1 r2 IH2 | r IH]; simpl;
    intros s H.
  - inversion H.
  - inversion H.
  - destruct (Regexp.inClass ranges c) eqn:Hc; inversion H; subst.
    by constructor.
  - destruct (Regexp.nullable r1) eqn:Hn.
    + inversion H as [| | | ? ? ? Hl | ? ? ? Hr | |]; subst.
      * inversion Hl as [| | ? ? s1 s2 H1 H2 | | | |]; subst.
        rewrite <- app_cons_string. constructor; auto.
      * rewrite <- (app_nil_l_string (String c s)).
        constructor; [by apply nullable_lang | auto].
    + inversion H as [| | ? ? s1 s2 H1 H2 | | | |]; subst.
      rewrite <- app_cons_string. constructor; auto.
  - inversion H; subst; [apply lang_Alt_l | apply lang_Alt_r]; auto.
  - inversion H as [| | ? ? s1 s2 H1 H2 | | | |]; subst.
    rewrite <- app_cons_string. constructor; auto.
Qed.

Lemma deriv_complete (c : ascii) (r : Regexp.t) (s : string) :
  lang r (String c s) → lang (Regexp.deriv c r) s.
Proof.
  remember (String c s) as t eqn:Ht. intros H. revert s Ht.
  induction H as [| ranges c' Hc | r1 r2 s1 s2 H1 IH1 H2 IH2
                  | r1 r2 s' H IH | r1 r2 s' H IH | r
                  | r s1 s2 H1 IH1 H2 IH2]; simpl; intros s Ht; try done.
  - injection Ht as -> <-. rewrite Hc. constructor.
  - destruct s1 as [| c1 s1'].
    + rewrite app_nil_l_string in Ht. subst s2.
      apply nullable_lang in H1. rewrite H1.
      apply lang_Alt_r. by apply IH2.
    + rewrite app_cons_string in Ht. injection Ht as -> <-.
      assert (lang (Regexp.Cat (Regexp.deriv c r1) r2) (s1' +:+ s2)) as Hcat
        by (constructor; auto).
      destruct (Regexp.nullable r1); [by apply lang_Alt_l | done].
  - apply lang_Alt_l. by apply IH.
  - apply lang_Alt_r. by apply IH.
  - destruct s1 as [| c1 s1'].
    + rewrite app_nil_l_string in Ht. by apply IH2.
    + rewrite app_cons_string in Ht. injection Ht as -> <-.
      constructor; auto.
Qed.

(** The matcher decides membership in the language of the pattern. *)
Lemma MatchString_lang (r : Regexp.t) (s : string) :
  Regexp.MatchString r s = true ↔ lang r s.
Proof.
  revert r. induction s as [| c s IH]; intros r; simpl.
  - apply nullable_lang.
  - rewrite IH. split; [apply deriv_sound | apply deriv_complete].
Qed.

(** The texts of a repeated byte class. *)
Lemma lang_Star_Class (ranges : list (ascii * ascii)) (s : string) :
  lang (Regexp.Star (Regexp.Class ranges)) s
  ↔ Forall (λ c, Regexp.inClass ranges c = true) (bytes s).
Proof.
  split.
  - remember (Regexp.Star (Regexp.Class ranges)) as r eqn:Hr. intros H.
    induction H as [| | | | | r' | r' s1 s2 H1 _ H2 IH2];
      try done; try (by constructor).
    injection Hr as ->. inversion H1 as [| ? c Hc | | | | |]; subst.
    rewrite app_cons_string, app_nil_l_string. simpl. constructor; auto.
  - induction s as [| c s IH]; simpl; intros H.
    + constructor.
    + apply Forall_cons in H as [Hc Hs].
      change (String c s) with (String c "" +:+ s).
      constructor; [by constructor | auto].
Qed.

Lemma lang_Plus_Class (ranges : list (ascii * ascii)) (s : string) :
  lang (Regexp.Plus (Regexp.Class ranges)) s
  ↔ s ≠ "" ∧ Forall (λ c, Regexp.inClass ranges c = true) (bytes s).
Proof.
  unfold Regexp.Plus. split.
  - intros H. inversion H as [| | ? ? s1 s2 H1 H2 | | | |]; subst.
    inversion H1 as [| ? c Hc | | | | |]; subst.
    apply lang_Star_Class in H2.
    rewrite app_cons_string, app_nil_l_string. simpl. split; [done |].
    by constructor.
  - intros [Hne H]. destruct s as [| c s]; [done |].
    simpl in H. apply Forall_cons in H as [Hc Hs].
    change (String c s) with (String c "" +:+ s).
    constructor; [by constructor | by apply lang_Star_Class].
Qed.

(** The byte class of [validName] is the class of the specification. *)
Lemma inClass_nameByte (c : ascii) :
  Regexp.inClass [("a", "z"); ("A", "Z"); ("0", "9"); ("_", "_")]%char c = true
  ↔ nameByte c.
Proof.
  unfold Regexp.inClass, Regexp.inRange, nameByte. cbn [existsb fst snd].
  change (nat_of_ascii "a") with 97. change (nat_of_ascii "z") with 122.
  change (nat_of_ascii "A") with 65. change (nat_of_ascii "Z") with 90.
  change (nat_of_ascii "0") with 48. change (nat_of_ascii "9") with 57.
  change (nat_of_ascii "_") with 95.
  generalize (nat_of_ascii c). intros n. cbv zeta.
  rewrite !orb_true_iff, !andb_true_iff, !Nat.leb_le. lia.
Qed.

(** [validName] matches exactly the well-formed names. *)
Lemma validName_wellFormed (s : string) :
  Regexp.MatchString validName s = true ↔ wellFormedName s.
Proof.
  rewrite MatchString_lang. unfold validName, wellFormedName.
  rewrite lang_Plus_Class. apply and_iff_compat_l.
  rewrite !Forall_forall. by setoid_rewrite inClass_nameByte.
Qed.

(** ** Secret names *)

Lemma checkSecretNames_loop_None (secrets : list string) :
  checkSecretNames_loop secrets = None ↔ Forall wellFormedName secrets.
Proof.
  induction secrets as [| s rest IH]; simpl.
  - split; [constructor | done].
  - rewrite Forall_cons, <- IH, <- validName_wellFormed.
    destruct (Regexp.MatchString validName s); simpl; intuition discriminate.
Qed.

Lemma checkSecretNames_loop_Some (secrets : list string) (err : error) :
  checkSecretNames_loop secrets = Some err
  ↔ ∃ before bad after,
      secrets = before ++ bad :: after
      ∧ Forall wellFormedName before
      ∧ ¬ wellFormedName bad
      ∧ err = invalidSecretName bad.
Proof.
  induction secrets as [| s rest IH]; simpl.
  - split; [done |]. intros (before & bad & after & H & _). by destruct before.
  - destruct (Regexp.MatchString validName s) eqn:Hs; simpl.
    + apply validName_wellFormed in Hs. rewrite IH. split.
      * intros (before & bad & after & -> & Hb & Hbad & ->).
        exists (s :: before), bad, after. split_and!; auto.
      * intros (before & bad & after & H & Hb & Hbad & ->).
        destruct before as [| s' before]; simpl in H.
        -- injection H as -> ->. done.
        -- injection H as -> ->. apply Forall_cons in Hb as [_ Hb].
           exists before, bad, after. split_and!; auto.
    + assert (¬ wellFormedName s) as Hbad.
      { intros H%validName_wellFormed. congruence. }
      split.
      * intros [= <-]. exists [], s, rest. split_and!; auto.
      * intros (before & bad & after & H & Hb & Hbad' & ->).
        destruct before as [| s' before]; simpl in H.
        -- by injection H as -> ->.
        -- injection H as -> ->. by apply Forall_cons in Hb as [? _].
Qed.

(** The error names the secret: different names give different errors. *)
Lemma invalidSecretName_inj (s1 s2 : string) :
  invalidSecretName s1 = invalidSecretName s2 → s1 = s2.
Proof.
  unfold invalidSecretName. intros [= H].
  apply String.app_inj in H. by apply app_inv_tail_string in H.
Qed.

(** C7: [checkSecretNames] succeeds exactly when every secret name is
    non-empty and made of letters, digits and underscores; otherwise it
    fails with the error that names the first secret, in list order, that
    is not. *)
Theorem checkSecretNames_first_offender (p : Pipeline) :
  (checkSecretNames p = None ↔ Forall wellFormedName (p_Secrets p))
  ∧ (∀ err, checkSecretNames p = Some err
       ↔ ∃ before bad after,
           p_Secrets p = before ++ bad :: after
           ∧ Forall wellFormedName before
           ∧ ¬ wellFormedName bad
           ∧ err = errors_New ("invalid secret name: '" +:+ bad
                   +:+ "' must contain only alphanumeric characters and underscores")).
Proof.
  split.
  - apply checkSecretNames_loop_None.
  - intros err. apply checkSecretNames_loop_Some.
Qed.

(** ** The environment of the execute step *)

(** The statements of [callDaggerStep] assign the entries of the five
    groups, in order. *)
Lemma callDaggerEnv_entries (p : Pipeline) :
  callDaggerEnv p = foldl assign ∅ (allEntries p).
Proof.
  unfold callDaggerEnv, allEntries, commandEntries, secretEntries,
    moduleEntries, cloudTokenEntries, githubContextEntries.
  rewrite !foldl_app, !foldl_fmap. cbn [foldl].
  destruct (decide (p_Module p ≠ "")); destruct (NoTraces (p_Settings p));
    try destruct (decide (PublicToken (p_Settings p) ≠ "")); reflexivity.
Qed.

(** A key no entry assigns keeps its value. *)
Lemma lookup_assign_notin (l : list (string * string))
    (env : gmap string string) (k : string) :
  k ∉ l.*1 → foldl assign env l !! k = env !! k.
Proof.
  revert env. induction l as [| [k' v'] l IH]; intros env Hk; [done |].
  simpl in *. apply not_elem_of_cons in Hk as [Hne Hk].
  rewrite IH by done. unfold assign. simpl. by rewrite lookup_insert_ne.
Qed.

(** A key whose entries all assign [v] ends with the value [v]. *)
Lemma lookup_assign_in (l : list (string * string))
    (env : gmap string string) (k v : string) :
  k ∈ l.*1 → (∀ v', (k, v') ∈ l → v' = v) → foldl assign env l !! k = Some v.
Proof.
  revert env. induction l as [| [k' v'] l IH]; intros env Hk Hv.
  - by apply elem_of_nil in Hk.
  - simpl. destruct (decide (k ∈ l.*1)) as [Hin | Hnotin].
    + apply IH; [done |]. intros v'' H. apply Hv. by right.
    + rewrite lookup_assign_notin by done.
      simpl in Hk. apply elem_of_cons in Hk as [-> | Hk]; [| done].
      rewrite (Hv v') by left. unfold assign. simpl.
      by rewrite lookup_insert_eq.
Qed.

(** The value of a key the entries assign does not depend on the map the
    assignments start from. *)
Lemma lookup_assign_indep (l : list (string * string))
    (env env' : gmap string string) (k : string) :
  k ∈ l.*1 → foldl assign env l !! k = foldl assign env' l !! k.
Proof.
  revert env env'. induction l as [| [k' v'] l IH]; intros env env' Hk.
  - by apply elem_of_nil in Hk.
  - simpl. destruct (decide (k ∈ l.*1)) as [Hin | Hnotin].
    + by apply IH.
    + rewrite !lookup_assign_notin by done.
      simpl in Hk. apply elem_of_cons in Hk as [-> | Hk]; [| done].
      unfold assign. simpl. by rewrite !lookup_insert_eq.
Qed.

(** The value of a key after two runs of assignments is decided by the
    second run when it assigns the key. *)
Lemma lookup_assign_app (l1 l2 : list (string * string))
    (env : gmap string string) (k : string) :
  foldl assign env (l1 ++ l2) !! k
  = if decide (k ∈ l2.*1) then foldl assign ∅ l2 !! k
    else foldl assign env l1 !! k.
Proof.
  rewrite foldl_app. destruct (decide (k ∈ l2.*1)) as [Hin | Hnotin].
  - by apply lookup_assign_indep.
  - by apply lookup_assign_notin.
Qed.

(** Distinct keys of a list have distinct images when the images have no
    duplicate. *)
Lemma NoDup_fmap_inj_on {A B} (f : A → B) (l : list A) (x y : A) :
  NoDup (f <$> l) → x ∈ l → y ∈ l → f x = f y → x = y.
Proof.
  induction l as [| a l IH]; simpl; intros Hnd Hx Hy Hf.
  - by apply elem_of_nil in Hx.
  - apply NoDup_cons in Hnd as [Ha Hnd].
    apply elem_of_cons in Hx as [-> | Hx]; apply elem_of_cons in Hy as [-> | Hy];
      auto.
    + exfalso. apply Ha. rewrite Hf. by apply list_elem_of_fmap_2.
    + exfalso. apply Ha. rewrite <- Hf. by apply list_elem_of_fmap_2.
Qed.

(** The names [GITHUB_<KEY>] of the host-context keys are distinct. *)
Lemma githubVar_NoDup : NoDup (githubVar <$> githubContextKeys).
Proof. by apply (bool_decide_unpack _); vm_compute. Qed.

Lemma githubContextEntries_keys :
  githubContextEntries.*1 = githubVar <$> githubContextKeys.
Proof. unfold githubContextEntries. by rewrite <- list_fmap_compose. Qed.

Lemma githubContextEntries_functional (k v1 v2 : string) :
  (k, v1) ∈ githubContextEntries → (k, v2) ∈ githubContextEntries → v1 = v2.
Proof.
  unfold githubContextEntries.
  intros (key1 & Heq1 & H1)%list_elem_of_fmap (key2 & Heq2 & H2)%list_elem_of_fmap.
  apply pair_equal_spec in Heq1 as [-> ->].
  apply pair_equal_spec in Heq2 as [Hk ->].
  by rewrite (NoDup_fmap_inj_on githubVar githubContextKeys key1 key2
                githubVar_NoDup H1 H2 Hk).
Qed.



(** The names the execute step sets itself are not [GITHUB_<KEY>] names. *)
Lemma COMMAND_not_github : "COMMAND" ∉ githubContextEntries.*1.
Proof. by apply (bool_decide_unpack _); vm_compute. Qed.

Lemma DAGGER_MODULE_not_github : "DAGGER_MODULE" ∉ githubContextEntries.*1.
Proof. by apply (bool_decide_unpack _); vm_compute. Qed.

Lemma DAGGER_CLOUD_TOKEN_not_github :
  "DAGGER_CLOUD_TOKEN" ∉ githubContextEntries.*1.
Proof. by apply (bool_decide_unpack _); vm_compute. Qed.

Lemma EXPERIMENTAL_DAGGER_CLOUD_TOKEN_not_github :
  "_EXPERIMENTAL_DAGGER_CLOUD_TOKEN" ∉ githubContextEntries.*1.
Proof. by apply (bool_decide_unpack _); vm_compute. Qed.

Lemma secretEntries_keys (p : Pipeline) : (secretEntries p).*1 = p_Secrets p.
Proof.
  unfold secretEntries. rewrite <- list_fmap_compose. apply list_fmap_id.
Qed.

Lemma secretEntries_elem (p : Pipeline) (k v : string) :
  (k, v) ∈ secretEntries p ↔ k ∈ p_Secrets p ∧ v = secretRef k.
Proof.
  unfold secretEntries. rewrite list_elem_of_fmap. split.
  - intros (s & Heq & Hs). apply pair_equal_spec in Heq as [-> ->]. done.
  - intros [Hk ->]. by exists k.
Qed.

(** The value of a key in the environment when no later group assigns it:
    the secrets decide, and before them the command entry. *)
Lemma callDaggerEnv_lookup_secret (p : Pipeline) (k : string) :
  k ∉ (moduleEntries p).*1 → k ∉ (cloudTokenEntries p).*1 →
  k ∉ githubContextEntries.*1 → k ≠ "COMMAND" →
  callDaggerEnv p !! k
  = if decide (k ∈ p_Secrets p) then Some (secretRef k) else None.
Proof.
  intros Hm Ht Hg Hc. rewrite callDaggerEnv_entries. unfold allEntries.
  rewrite !(assoc_L (++)).
  rewrite lookup_assign_app, decide_False by exact Hg.
  rewrite lookup_assign_app, decide_False by exact Ht.
  rewrite lookup_assign_app, decide_False by exact Hm.
  rewrite lookup_assign_app, secretEntries_keys.
  destruct (decide (k ∈ p_Secrets p)) as [Hin | Hnotin].
  - apply lookup_assign_in.
    + by rewrite secretEntries_keys.
    + intros v' Hv'. by apply secretEntries_elem in Hv' as [_ ->].
  - unfold commandEntries, assign. simpl. by rewrite lookup_insert_ne.
Qed.

(** The value of a key the cloud-token statements assign. *)
Lemma callDaggerEnv_lookup_cloudToken (p : Pipeline) (k v : string) :
  k ∉ githubContextEntries.*1 →
  (k, v) ∈ cloudTokenEntries p →
  callDaggerEnv p !! k = Some v.
Proof.
  intros Hg Hin. rewrite callDaggerEnv_entries. unfold allEntries.
  rewrite !(assoc_L (++)).
  rewrite lookup_assign_app, decide_False by exact Hg.
  assert (k ∈ (cloudTokenEntries p).*1) as Hk
    by exact (list_elem_of_fmap_2' fst _ (k, v) k Hin eq_refl).
  rewrite lookup_assign_app, decide_True by exact Hk.
  apply lookup_assign_in; [exact Hk |].
  revert Hin. unfold cloudTokenEntries.
  destruct (NoTraces (p_Settings p)); simpl.
  - by intros ?%elem_of_nil.
  - destruct (decide (PublicToken (p_Settings p) ≠ ""));
      intros H1 v' H2;
      repeat (apply elem_of_cons in H1 as [H1 | H1]);
      repeat (apply elem_of_cons in H2 as [H2 | H2]);
      try (by apply elem_of_nil in H1); try (by apply elem_of_nil in H2);
      congruence.
Qed.

(** C4, as the code has it: with tracing on, [DAGGER_CLOUD_TOKEN] and
    [_EXPERIMENTAL_DAGGER_CLOUD_TOKEN] both hold the secret reference
    [${{ secrets.DAGGER_CLOUD_TOKEN }}] when the public token is empty and
    both hold the public token otherwise; with tracing off the step's own
    statements set neither, so each is present exactly when it is a declared
    secret, and then holds that secret's reference. *)
Theorem callDaggerEnv_cloud_token (p : Pipeline) :
  let env := callDaggerEnv p in
  if NoTraces (p_Settings p) then
    env !! "DAGGER_CLOUD_TOKEN"
    = (if decide ("DAGGER_CLOUD_TOKEN" ∈ p_Secrets p)
       then Some "${{ secrets.DAGGER_CLOUD_TOKEN }}" else None)
    ∧ env !! "_EXPERIMENTAL_DAGGER_CLOUD_TOKEN"
      = (if decide ("_EXPERIMENTAL_DAGGER_CLOUD_TOKEN" ∈ p_Secrets p)
         then Some "${{ secrets._EXPERIMENTAL_DAGGER_CLOUD_TOKEN }}" else None)
  else if decide (PublicToken (p_Settings p) = "") then
    env !! "DAGGER_CLOUD_TOKEN" = Some "${{ secrets.DAGGER_CLOUD_TOKEN }}"
    ∧ env !! "_EXPERIMENTAL_DAGGER_CLOUD_TOKEN"
      = Some "${{ secrets.DAGGER_CLOUD_TOKEN }}"
  else
    env !! "DAGGER_CLOUD_TOKEN" = Some (PublicToken (p_Settings p))
    ∧ env !! "_EXPERIMENTAL_DAGGER_CLOUD_TOKEN"
      = Some (PublicToken (p_Settings p)).
Proof.
  cbv zeta. destruct (NoTraces (p_Settings p)) eqn:Hnt.
  - assert ((cloudTokenEntries p) = []) as Ht
      by (unfold cloudTokenEntries; by rewrite Hnt).
    split.
    + rewrite callDaggerEnv_lookup_secret; [done | | | | done].
      * unfold moduleEntries. destruct (decide (p_Module p ≠ "")); simpl;
          [by intros ?%list_elem_of_singleton | apply not_elem_of_nil].
      * rewrite Ht. apply not_elem_of_nil.
      * apply DAGGER_CLOUD_TOKEN_not_github.
    + rewrite callDaggerEnv_lookup_secret; [done | | | | done].
      * unfold moduleEntries. destruct (decide (p_Module p ≠ "")); simpl;
          [by intros ?%list_elem_of_singleton | apply not_elem_of_nil].
      * rewrite Ht. apply not_elem_of_nil.
      * apply EXPERIMENTAL_DAGGER_CLOUD_TOKEN_not_github.
  - destruct (decide (PublicToken (p_Settings p) = "")) as [He | Hne].
    + split.
      * apply callDaggerEnv_lookup_cloudToken;
          [apply DAGGER_CLOUD_TOKEN_not_github |].
        unfold cloudTokenEntries. rewrite Hnt. simpl.
        rewrite decide_False by (by intros []). apply list_elem_of_here.
      * apply callDaggerEnv_lookup_cloudToken;
          [apply EXPERIMENTAL_DAGGER_CLOUD_TOKEN_not_github |].
        unfold cloudTokenEntries. rewrite Hnt. simpl.
        rewrite decide_False by (by intros []).
        apply list_elem_of_further, list_elem_of_here.
    + split.
      * apply callDaggerEnv_lookup_cloudToken;
          [apply DAGGER_CLOUD_TOKEN_not_github |].
        unfold cloudTokenEntries. rewrite Hnt. simpl.
        rewrite decide_True by done. apply list_elem_of_here.
      * apply callDaggerEnv_lookup_cloudToken;
          [apply EXPERIMENTAL_DAGGER_CLOUD_TOKEN_not_github |].
        unfold cloudTokenEntries. rewrite Hnt. simpl.
        rewrite decide_True by done.
        apply list_elem_of_further, list_elem_of_here.
Qed.

(** C4 as stated fails twice.  With tracing off and a secret declared under
    the name [DAGGER_CLOUD_TOKEN], the variable is present in the
    environment; and with tracing off a non-empty public token is not
    written to either variable. *)
Lemma callDaggerEnv_cloud_token_present_without_traces :
  ¬ (∀ p : Pipeline,
       NoTraces (p_Settings p) = true →
       callDaggerEnv p !! "DAGGER_CLOUD_TOKEN" = None
       ∧ callDaggerEnv p !! "_EXPERIMENTAL_DAGGER_CLOUD_TOKEN" = None)
  ∧ ¬ (∀ p : Pipeline,
         PublicToken (p_Settings p) ≠ "" →
         callDaggerEnv p !! "DAGGER_CLOUD_TOKEN"
         = Some (PublicToken (p_Settings p))
         ∧ callDaggerEnv p !! "_EXPERIMENTAL_DAGGER_CLOUD_TOKEN"
           = Some (PublicToken (p_Settings p))).
Proof.
  split.
  - intros H.
    destruct (H {| p_Module := ""; p_Command := "build --source=.";
                   p_Secrets := ["DAGGER_CLOUD_TOKEN"];
                   p_SparseCheckout := None;
                   p_Settings := mkSettings "" "latest" true false false
                                            "ubuntu-latest" |} eq_refl)
      as [Hpresent _].
    vm_compute in Hpresent. discriminate Hpresent.
  - intros H.
    destruct (H {| p_Module := ""; p_Command := "build --source=.";
                   p_Secrets := [];
                   p_SparseCheckout := None;
                   p_Settings := mkSettings "public" "latest" true false false
                                            "ubuntu-latest" |})
      as [Hset _]; [discriminate |].
    vm_compute in Hset. discriminate Hset.
Qed.

(** The scenario of the specification: the command [build --source=.], the
    secret [DAGGER_CLOUD_TOKEN] and no module. *)
Example callDaggerEnv_scenario :
  let p := {| p_Module := ""; p_Command := "build --source=.";
              p_Secrets := ["DAGGER_CLOUD_TOKEN"];
              p_SparseCheckout := None;
              p_Settings := mkSettings "" "latest" false false false
                                       "ubuntu-latest" |} in
  callDaggerEnv p !! "COMMAND" = Some "dagger call -q build --source=."
  ∧ callDaggerEnv p !! "DAGGER_CLOUD_TOKEN"
    = Some "${{ secrets.DAGGER_CLOUD_TOKEN }}"
  ∧ callDaggerEnv p !! "DAGGER_MODULE" = None.
Proof. intros p. by vm_compute. Qed.

(** ** Disjointness of the groups *)

Lemma elem_of_keys (g : list (string * string)) (k v : string) :
  (k, v) ∈ g → k ∈ g.*1.
Proof. intros H. exact (list_elem_of_fmap_2' fst g (k, v) k H eq_refl). Qed.

Lemma disjointKeys_sym (g1 g2 : list (string * string)) :
  disjointKeys g1 g2 → disjointKeys g2 g1.
Proof. intros H k H2 H1. exact (H k H1 H2). Qed.

Lemma commandEntries_keys (p : Pipeline) (k : string) :
  k ∈ (commandEntries p).*1 → k = "COMMAND".
Proof. unfold commandEntries. simpl. by intros ->%list_elem_of_singleton. Qed.

Lemma moduleEntries_keys (p : Pipeline) (k : string) :
  k ∈ (moduleEntries p).*1 → k = "DAGGER_MODULE".
Proof.
  unfold moduleEntries. destruct (decide (p_Module p ≠ "")); simpl.
  - by intros ->%list_elem_of_singleton.
  - by intros ?%elem_of_nil.
Qed.

Lemma cloudTokenEntries_keys (p : Pipeline) (k : string) :
  k ∈ (cloudTokenEntries p).*1 →
  k = "DAGGER_CLOUD_TOKEN" ∨ k = "_EXPERIMENTAL_DAGGER_CLOUD_TOKEN".
Proof.
  unfold cloudTokenEntries.
  destruct (NoTraces (p_Settings p)); simpl; [by intros ?%elem_of_nil |].
  destruct (decide (PublicToken (p_Settings p) ≠ "")); simpl;
    intros [-> | ->%list_elem_of_singleton]%elem_of_cons; auto.
Qed.

(** The four groups the step sets by itself never share a key. *)
Lemma fixed_groups_disjoint (p : Pipeline) :
  disjointKeys (commandEntries p) (moduleEntries p)
  ∧ disjointKeys (commandEntries p) (cloudTokenEntries p)
  ∧ disjointKeys (commandEntries p) githubContextEntries
  ∧ disjointKeys (moduleEntries p) (cloudTokenEntries p)
  ∧ disjointKeys (moduleEntries p) githubContextEntries
  ∧ disjointKeys (cloudTokenEntries p) githubContextEntries.
Proof.
  split_and!; intros k H1 H2.
  - apply commandEntries_keys in H1 as ->. by apply moduleEntries_keys in H2.
  - apply commandEntries_keys in H1 as ->.
    by apply cloudTokenEntries_keys in H2 as [? | ?].
  - apply commandEntries_keys in H1 as ->. by apply COMMAND_not_github.
  - apply moduleEntries_keys in H1 as ->.
    by apply cloudTokenEntries_keys in H2 as [? | ?].
  - apply moduleEntries_keys in H1 as ->. by apply DAGGER_MODULE_not_github.
  - apply cloudTokenEntries_keys in H1 as [-> | ->].
    + by apply DAGGER_CLOUD_TOKEN_not_github.
    + by apply EXPERIMENTAL_DAGGER_CLOUD_TOKEN_not_github.
Qed.

(** Within a group, a key is assigned one value. *)
Lemma commandEntries_functional (p : Pipeline) (k v1 v2 : string) :
  (k, v1) ∈ commandEntries p → (k, v2) ∈ commandEntries p → v1 = v2.
Proof.
  unfold commandEntries.
  intros H1%list_elem_of_singleton H2%list_elem_of_singleton. congruence.
Qed.

Lemma secretEntries_functional (p : Pipeline) (k v1 v2 : string) :
  (k, v1) ∈ secretEntries p → (k, v2) ∈ secretEntries p → v1 = v2.
Proof.
  intros [_ ->]%secretEntries_elem [_ ->]%secretEntries_elem. done.
Qed.

Lemma moduleEntries_functional (p : Pipeline) (k v1 v2 : string) :
  (k, v1) ∈ moduleEntries p → (k, v2) ∈ moduleEntries p → v1 = v2.
Proof.
  unfold moduleEntries. destruct (decide (p_Module p ≠ "")).
  - intros H1%list_elem_of_singleton H2%list_elem_of_singleton. congruence.
  - by intros ?%elem_of_nil.
Qed.

Lemma cloudTokenEntries_functional (p : Pipeline) (k v1 v2 : string) :
  (k, v1) ∈ cloudTokenEntries p → (k, v2) ∈ cloudTokenEntries p → v1 = v2.
Proof.
  unfold cloudTokenEntries.
  destruct (NoTraces (p_Settings p)); simpl; [by intros ?%elem_of_nil |].
  destruct (decide (PublicToken (p_Settings p) ≠ ""));
    intros [H1 | H1%list_elem_of_singleton]%elem_of_cons
           [H2 | H2%list_elem_of_singleton]%elem_of_cons; congruence.
Qed.

(** With pairwise disjoint groups, all the entries of a key agree. *)
Lemma allEntries_functional (p : Pipeline) (k v1 v2 : string) :
  groupsDisjoint p →
  (k, v1) ∈ allEntries p → (k, v2) ∈ allEntries p → v1 = v2.
Proof.
  intros (D12 & D13 & D14 & D15 & D23 & D24 & D25 & D34 & D35 & D45).
  unfold allEntries. rewrite !elem_of_app.
  intros H1 H2.
  pose proof (disjointKeys_sym _ _ D12). pose proof (disjointKeys_sym _ _ D13).
  pose proof (disjointKeys_sym _ _ D14). pose proof (disjointKeys_sym _ _ D15).
  pose proof (disjointKeys_sym _ _ D23). pose proof (disjointKeys_sym _ _ D24).
  pose proof (disjointKeys_sym _ _ D25). pose proof (disjointKeys_sym _ _ D34).
  pose proof (disjointKeys_sym _ _ D35). pose proof (disjointKeys_sym _ _ D45).
  destruct H1 as [H1 | [H1 | [H1 | [H1 | H1]]]];
    destruct H2 as [H2 | [H2 | [H2 | [H2 | H2]]]];
    first
      [ exact (commandEntries_functional p k v1 v2 H1 H2)
      | exact (secretEntries_functional p k v1 v2 H1 H2)
      | exact (moduleEntries_functional p k v1 v2 H1 H2)
      | exact (cloudTokenEntries_functional p k v1 v2 H1 H2)
      | exact (githubContextEntries_functional k v1 v2 H1 H2)
      | exfalso;
        match goal with
        | D : disjointKeys ?g1 ?g2 |- _ =>
            exact (D k (elem_of_keys g1 k v1 H1) (elem_of_keys g2 k v2 H2))
        end ].
Qed.

(** C3, as the code has it: when no declared secret bears a name that
    another group assigns, the five groups have pairwise disjoint keys, and
    no entry is overwritten: every key holds the value its group assigned. *)
Theorem callDaggerEnv_groups_disjoint (p : Pipeline) :
  disjointKeys (secretEntries p) (fixedEntries p) →
  groupsDisjoint p ∧ kept (callDaggerEnv p) (allEntries p).
Proof.
  intros Hs.
  destruct (fixed_groups_disjoint p) as (D13 & D14 & D15 & D34 & D35 & D45).
  assert (∀ g, (∀ k, k ∈ g.*1 → k ∈ (fixedEntries p).*1) →
               disjointKeys (secretEntries p) g) as Hsub.
  { intros g Hg k H1 H2. exact (Hs k H1 (Hg k H2)). }
  assert (groupsDisjoint p) as HD.
  { unfold groupsDisjoint. split_and!; try assumption.
    - apply disjointKeys_sym, Hsub. intros k Hk.
      unfold fixedEntries. rewrite fmap_app. apply elem_of_app. by left.
    - apply Hsub. intros k Hk. unfold fixedEntries.
      rewrite !fmap_app, !elem_of_app. auto.
    - apply Hsub. intros k Hk. unfold fixedEntries.
      rewrite !fmap_app, !elem_of_app. auto.
    - apply Hsub. intros k Hk. unfold fixedEntries.
      rewrite !fmap_app, !elem_of_app. auto. }
  split; [exact HD |].
  unfold kept. apply Forall_forall. intros [k v] Hkv. simpl.
  rewrite callDaggerEnv_entries. apply lookup_assign_in.
  - exact (elem_of_keys _ k v Hkv).
  - intros v' Hv'. exact (allEntries_functional p k v' v HD Hv' Hkv).
Qed.

(** A pipeline whose secrets collide with no other group. *)
Lemma callDaggerEnv_groups_disjoint_witness :
  let p := {| p_Module := "ci"; p_Command := "build --source=.";
              p_Secrets := ["NPM_TOKEN"; "DOCKER_PASSWORD"];
              p_SparseCheckout := None;
              p_Settings := mkSettings "" "latest" false false false
                                       "ubuntu-latest" |} in
  disjointKeys (secretEntries p) (fixedEntries p)
  ∧ groupsDisjoint p ∧ kept (callDaggerEnv p) (allEntries p).
Proof.
  intros p.
  assert (disjointKeys (secretEntries p) (fixedEntries p)) as Hs.
  { intros k H1 H2.
    assert (Forall (λ k, k ∉ (fixedEntries p).*1) (secretEntries p).*1) as Hall
      by (by apply (bool_decide_unpack _); vm_compute).
    rewrite Forall_forall in Hall. exact (Hall k H1 H2). }
  split; [exact Hs |]. exact (callDaggerEnv_groups_disjoint p Hs).
Defined.

(** C3 as stated fails: a secret declared under the name [COMMAND] shares
    its key with the command entry and overwrites it. *)
Lemma callDaggerEnv_secret_overwrites_COMMAND :
  let p := {| p_Module := ""; p_Command := "build --source=.";
              p_Secrets := ["COMMAND"];
              p_SparseCheckout := None;
              p_Settings := mkSettings "" "latest" false false false
                                       "ubuntu-latest" |} in
  ¬ groupsDisjoint p
  ∧ callDaggerEnv p !! "COMMAND" = Some "${{ secrets.COMMAND }}"
  ∧ ¬ kept (callDaggerEnv p) (commandEntries p).
Proof.
  intros p. split; [| split].
  - intros (D12 & _). apply (D12 "COMMAND"); apply list_elem_of_here.
  - vm_compute. reflexivity.
  - unfold kept, commandEntries. intros H%Forall_inv.
    vm_compute in H. discriminate H.
Qed.

(** ** Pre-flight validation of all triggers *)

Section CheckFacts.

Context {Directory World : Type}.
Context (Sync : Container Directory → World → option error * World).
Context (repo : Directory).

Lemma Checks_pass_app (ps1 ps2 : list Pipeline) (w w2 : World) :
  Checks_pass Sync repo (ps1 ++ ps2) w w2
  ↔ ∃ w1, Checks_pass Sync repo ps1 w w1 ∧ Checks_pass Sync repo ps2 w1 w2.
Proof.
  revert w. induction ps1 as [| p ps1 IH]; intros w; simpl.
  - split.
    + intros H. exists w. split; [constructor | done].
    + intros (w1 & H1 & H2). by inversion H1; subst.
  - split.
    + intros H. inversion H as [| ? ? ? wa ? Hp Hrest]; subst.
      apply IH in Hrest as (w1 & H1 & H2).
      exists w1. split; [by econstructor | done].
    + intros (w1 & H1 & H2). inversion H1 as [| ? ? ? wa ? Hp Hrest]; subst.
      econstructor; [done |]. apply IH. eauto.
Qed.

(** A loop of [Gha.Check] checks the pipelines of its triggers. *)
Lemma Check_loop_pipelines {C} (ts : list (Trigger C)) (w : World) :
  Check_loop Sync ts repo w = Check_pipelines Sync repo (t_Pipeline <$> ts) w.
Proof.
  revert w. induction ts as [| t ts IH]; intros w; simpl; [done |].
  destruct (Pipeline_Check Sync (t_Pipeline t) repo w) as [[err |] w1]; auto.
Qed.

Lemma Check_pipelines_app (ps1 ps2 : list Pipeline) (w : World) :
  Check_pipelines Sync repo (ps1 ++ ps2) w
  = match Check_pipelines Sync repo ps1 w with
    | (Some err, w') => (Some err, w')
    | (None, w') => Check_pipelines Sync repo ps2 w'
    end.
Proof.
  revert w. induction ps1 as [| p ps1 IH]; intros w; simpl; [done |].
  destruct (Pipeline_Check Sync p repo w) as [[err |] w1]; auto.
Qed.

(** [Gha.Check] returns its receiver, and the outcome of checking the
    registered pipelines in order. *)
Lemma Gha_Check_pipelines {PushC PullRequestC DispatchC IssueCommentC : Type}
    (m : Gha PushC PullRequestC DispatchC IssueCommentC) (w : World) :
  Gha_Check Sync m repo w
  = ((m, (Check_pipelines Sync repo (registered m) w).1),
     (Check_pipelines Sync repo (registered m) w).2).
Proof.
  unfold Gha_Check, registered.
  rewrite Check_pipelines_app, Check_loop_pipelines.
  destruct (Check_pipelines Sync repo (t_Pipeline <$> PushTriggers m) w)
    as [[e1 |] w1]; [done |].
  rewrite Check_pipelines_app, Check_loop_pipelines.
  destruct (Check_pipelines Sync repo (t_Pipeline <$> PullRequestTriggers m) w1)
    as [[e2 |] w2]; [done |].
  rewrite Check_pipelines_app, Check_loop_pipelines.
  destruct (Check_pipelines Sync repo (t_Pipeline <$> DispatchTriggers m) w2)
    as [[e3 |] w3]; [done |].
  rewrite Check_loop_pipelines.
  destruct (Check_pipelines Sync repo (t_Pipeline <$> IssueCommentTriggers m) w3)
    as [[e4 |] w4]; done.
Qed.

(** Checks that run to the end have passed every pipeline. *)
Lemma Check_pipelines_None (ps : list Pipeline) (w w' : World) :
  Check_pipelines Sync repo ps w = (None, w')
  ↔ Checks_pass Sync repo ps w w'.
Proof.
  revert w. induction ps as [| p ps IH]; intros w; simpl.
  - split.
    + intros [= ->]. constructor.
    + intros H. by inversion H; subst.
  - destruct (Pipeline_Check Sync p repo w) as [[err |] w1] eqn:Hp.
    + split; [done |]. intros H. inversion H; subst. congruence.
    + rewrite IH. split.
      * intros H. by econstructor.
      * intros H. inversion H as [| ? ? ? wa ? Hp' Hrest]; subst.
        rewrite Hp in Hp'. by injection Hp' as ->.
Qed.

(** After a passing prefix the checks go on with the rest. *)
Lemma Check_pipelines_pass_prefix (before rest : list Pipeline) (w w1 : World) :
  Checks_pass Sync repo before w w1 →
  Check_pipelines Sync repo (before ++ rest) w
  = Check_pipelines Sync repo rest w1.
Proof.
  intros H. rewrite Check_pipelines_app.
  apply Check_pipelines_None in H. by rewrite H.
Qed.

(** Checks that stop with an error have passed the pipelines before the
    failing one, and hold the error and the state of its check. *)
Lemma Check_pipelines_Some (ps : list Pipeline) (w w' : World) (err : error) :
  Check_pipelines Sync repo ps w = (Some err, w')
  ↔ ∃ before p after w1,
      ps = before ++ p :: after
      ∧ Checks_pass Sync repo before w w1
      ∧ Pipeline_Check Sync p repo w1 = (Some err, w').
Proof.
  split.
  - revert w. induction ps as [| p ps IH]; intros w; simpl; [done |].
    destruct (Pipeline_Check Sync p repo w) as [[e |] w1] eqn:Hp.
    + intros [= -> ->]. exists [], p, ps, w.
      split_and!; [done | constructor | done].
    + intros (before & p' & after & wa & -> & Hpass & Hfail)%IH.
      exists (p :: before), p', after, wa. split_and!; [done | | done].
      by econstructor.
  - intros (before & p & after & w1 & -> & Hpass & Hfail).
    rewrite (Check_pipelines_pass_prefix _ _ _ _ Hpass). simpl.
    by rewrite Hfail.
Qed.

(** The passing checks of a list of pipelines lead to one state. *)
Lemma Checks_pass_det (ps : list Pipeline) (w w1 w2 : World) :
  Checks_pass Sync repo ps w w1 → Checks_pass Sync repo ps w w2 → w1 = w2.
Proof.
  intros H1. revert w2. induction H1 as [| p ps w wa wb Hp Hrest IH]; intros w2 H2.
  - by inversion H2.
  - inversion H2 as [| ? ? ? wa' ? Hp' Hrest']; subst.
    rewrite Hp in Hp'. injection Hp' as <-. by apply IH.
Qed.

(** A list whose checks pass has no failing pipeline after a passing
    prefix. *)
Lemma Checks_pass_no_failure (before after : list Pipeline) (p : Pipeline)
    (w w1 w2 w' : World) (err : error) :
  Checks_pass Sync repo (before ++ p :: after) w w' →
  Checks_pass Sync repo before w w1 →
  Pipeline_Check Sync p repo w1 = (Some err, w2) → False.
Proof.
  intros (wa & Hb & Hrest)%Checks_pass_app Hb' Hfail.
  rewrite (Checks_pass_det _ _ _ _ Hb' Hb) in Hfail.
  inversion Hrest; subst. congruence.
Qed.

End CheckFacts.

(** C8: [Gha.Check] checks the pipelines of the push, pull-request,
    dispatch and issue-comment triggers, in that order and each list in
    registration order.  It returns its receiver.  When a pipeline fails
    after the ones before it have passed, [Gha.Check] returns that error
    unchanged and stops in the state the failing check left, so no later
    pipeline is checked.  It returns no error exactly when every check
    passes, and any error it returns is the one of such a first failing
    pipeline. *)
Theorem Gha_Check_first_failure
    {Directory World PushC PullRequestC DispatchC IssueCommentC : Type}
    (Sync : Container Directory → World → option error * World)
    (m : Gha PushC PullRequestC DispatchC IssueCommentC)
    (repo : Directory) (w : World) :
  (Gha_Check Sync m repo w).1.1 = m
  ∧ (∀ before p after err w1 w2,
       registered m = before ++ p :: after →
       Checks_pass Sync repo before w w1 →
       Pipeline_Check Sync p repo w1 = (Some err, w2) →
       Gha_Check Sync m repo w = ((m, Some err), w2))
  ∧ (∀ w', Gha_Check Sync m repo w = ((m, None), w')
           ↔ Checks_pass Sync repo (registered m) w w')
  ∧ (∀ err w', Gha_Check Sync m repo w = ((m, Some err), w') →
       ∃ before p after w1,
         registered m = before ++ p :: after
         ∧ Checks_pass Sync repo before w w1
         ∧ Pipeline_Check Sync p repo w1 = (Some err, w')).
Proof.
  rewrite Gha_Check_pipelines. split_and!.
  - done.
  - intros before p after err w1 w2 Heq Hpass Hfail.
    assert (Check_pipelines Sync repo (registered m) w = (Some err, w2)) as ->; [| done].
    apply Check_pipelines_Some. exists before, p, after, w1. done.
  - intros w'. rewrite <- Check_pipelines_None.
    destruct (Check_pipelines Sync repo (registered m) w) as [e w0]; simpl.
    split; [by intros [= -> ->] | by intros [= -> ->]].
  - intros err w' H. apply Check_pipelines_Some.
    destruct (Check_pipelines Sync repo (registered m) w) as [e w0]; simpl in *.
    by injection H as -> ->.
Qed.

(** An aggregator whose pull-request pipeline fails: the push pipeline is
    checked, the pull-request pipeline is checked and its error returned,
    and the dispatch pipeline is not checked (the log has two commands). *)
Lemma Gha_Check_first_failure_witness :
  let settings := mkSettings "" "latest" false false false "ubuntu-latest" in
  let ok := mkPipeline "ci" "build" ["TOKEN"] None settings in
  let bad := mkPipeline "ci" "deploy" [] None settings in
  let m : Gha unit unit unit unit :=
    mkGha [mkTrigger ok tt] [mkTrigger bad tt] [mkTrigger ok tt] [] settings in
  let Sync := logging_Sync ["dagger call -m 'ci' deploy --help"] in
  Gha_Check Sync m tt []
  = ((m, Some (errors_New "exit code: 1")),
     [["bash"; "-c"; "dagger call -m 'ci' build --help"];
      ["bash"; "-c"; "dagger call -m 'ci' deploy --help"]]).
Proof.
  intros settings ok bad m Sync.
  apply (proj1 (proj2 (Gha_Check_first_failure Sync m tt []))
           [ok] bad [ok] (errors_New "exit code: 1")
           [["bash"; "-c"; "dagger call -m 'ci' build --help"]]).
  - reflexivity.
  - eapply Checks_pass_cons; [reflexivity | apply Checks_pass_nil].
  - reflexivity.
Defined.

(** ** Compilation *)






(** The scripts a compilation reads. *)
Lemma bashStep_Some (p : Pipeline) (id : string)
    (env : option (gmap string string)) (w : ModuleSource) (script : string) :
  files w !! ("scripts/" +:+ id +:+ ".sh") = Some script →
  bashStep p id env w
  = (Some {| js_Name := "scripts/" +:+ id +:+ ".sh"; js_ID := id;
             js_Uses := ""; js_Shell := "bash"; js_Run := script;
             js_With := None; js_Env := env |},
     {| files := files w;
        reads := reads w ++ ["scripts/" +:+ id +:+ ".sh"] |}).
Proof. intros H. unfold bashStep, bind, Contents, ret. by rewrite H. Qed.

(** The execute step carries the environment of [callDaggerEnv]. *)
Lemma callDaggerStep_env (p : Pipeline) (w : ModuleSource) (step : JobStep) :
  (callDaggerStep p w).1 = Some step → js_Env step = Some (callDaggerEnv p).
Proof.
  unfold callDaggerStep, bashStep, bind, Contents, ret. simpl.
  destruct (files w !! _); simpl; [| done]. by intros [= <-].
Qed.

(** A compilation succeeds when the module has its scripts, and the
    document has the command as its name, no trigger, and the one job
    [dagger] on the pipeline's runner. *)
Lemma asWorkflow_Some (p : Pipeline) (w : ModuleSource) (install warm exec : string) :
  StopEngine (p_Settings p) = false →
  files w !! "scripts/install-dagger.sh" = Some install →
  files w !! "scripts/warm-engine.sh" = Some warm →
  files w !! "scripts/exec.sh" = Some exec →
  ∃ step2 step3 step4,
    (asWorkflow p w).1
    = Some {| w_Name := p_Command p; w_On := noTriggers;
              w_Jobs :=
                {[ "dagger" :=
                     {| RunsOn := Runner (p_Settings p);
                        Steps := [checkoutStep p; step2; step3; step4];
                        Outputs :=
                          <["stderr" := "${{ steps.exec.outputs.stderr }}"]>
                            {[ "stdout" := "${{ steps.exec.outputs.stdout }}" ]} |} ]} |}
    ∧ js_Run step2 = install ∧ js_Run step3 = warm ∧ js_Run step4 = exec
    ∧ js_Env step4 = Some (callDaggerEnv p).
Proof.
  intros Hstop Hi Hw He.
  unfold asWorkflow, installDaggerStep, warmEngineStep, callDaggerStep.
  rewrite Hstop. unfold bind at 1. unfold ret at 1.
  unfold bind at 1. rewrite bashStep_Some with (script := install) by exact Hi.
  unfold bind at 1. rewrite bashStep_Some with (script := warm) by exact Hw.
  unfold bind at 1. rewrite bashStep_Some with (script := exec) by exact He.
  unfold bind, ret. cbn [fst]. eexists _, _, _. split; [reflexivity |].
  cbn [js_Run js_Env]. repeat split.
Qed.


(** ** File names *)

Lemma fmap_imap_indep {A B C} (f : nat → A → B) (g : B → C) (h : A → C)
    (l : list A) :
  (∀ j a, g (f j a) = h a) → g <$> imap f l = h <$> l.
Proof.
  revert f. induction l as [| a l IH]; intros f H; [done |].
  rewrite imap_cons, !fmap_cons, H. f_equal. apply IH. intros j b. apply H.
Qed.

Lemma fmap_imap_index {A B C} (f : nat → A → B) (g : B → C) (h : nat → C)
    (l : list A) :
  (∀ j a, g (f j a) = h j) → g <$> imap f l = h <$> seq 0 (length l).
Proof.
  intros H. rewrite fmap_imap, <- imap_seq_0 with (l := l).
  apply imap_ext. intros j a _. apply H.
Qed.

(** What one loop of [Gha.Config] records: for the trigger at position [j]
    its pipeline, the file name numbered [i + j + 1], and [asJson]. *)
Lemma Config_loop_recorded {C} (kind prefix : string) (asJson : bool)
    (ts : list (Trigger C)) (i : nat) (dir : list Rendering) :
  Config_loop (λ dir _ d, dir ++ d) recorded_Config kind prefix asJson ts i dir
  = dir ++ imap (λ j t, (t_Pipeline t,
                         Sprintf_s_d kind ".yml" prefix (i + j + 1),
                         asJson)) ts.
Proof.
  revert i dir. induction ts as [| t ts IH]; intros i dir; simpl.
  - by rewrite app_nil_r.
  - rewrite IH, <- (assoc_L (++)). f_equal. unfold recorded_Config. simpl.
    rewrite Nat.add_0_r. f_equal. apply imap_ext. intros j t' _. simpl.
    by replace (S (i + j + 1)) with (i + S j + 1) by lia.
Qed.

(** The renderings of the four loops, kind after kind. *)
Lemma Gha_Config_renderings_eq {PushC PullRequestC DispatchC IssueCommentC : Type}
    (m : Gha PushC PullRequestC DispatchC IssueCommentC) (prefix : string) :
  Gha_Config_renderings m prefix
  = imap (λ j t, (t_Pipeline t, Sprintf_s_d "push-" ".yml" prefix (0 + j + 1),
                  AsJson (g_Settings m))) (PushTriggers m)
    ++ imap (λ j t, (t_Pipeline t, Sprintf_s_d "pr-" ".yml" prefix (0 + j + 1),
                     AsJson (g_Settings m))) (PullRequestTriggers m)
    ++ imap (λ j t, (t_Pipeline t, Sprintf_s_d "dispatch-" ".yml" prefix (0 + j + 1),
                     AsJson (g_Settings m))) (DispatchTriggers m)
    ++ imap (λ j t, (t_Pipeline t,
                     Sprintf_s_d "issue-comment-" ".yml" prefix (0 + j + 1),
                     AsJson (g_Settings m))) (IssueCommentTriggers m).
Proof.
  unfold Gha_Config_renderings, Gha_Config. cbv zeta.
  rewrite !Config_loop_recorded. by rewrite !(assoc_L (++)).
Qed.

(** The names one loop chooses are the names of the specification with the
    extension [.yml]. *)
Lemma kind_filenames {C} (kind prefix : string) (asJson : bool)
    (ts : list (Trigger C)) :
  (λ r : Rendering, r.1.2)
    <$> imap (λ j t, (t_Pipeline t,
                      Sprintf_s_d (kind +:+ "-") ".yml" prefix (0 + j + 1),
                      asJson)) ts
  = spec_kind_filenames prefix kind ".yml" (length ts).
Proof.
  unfold spec_kind_filenames.
  rewrite <- fmap_S_seq, <- list_fmap_compose.
  apply fmap_imap_index. intros j t. simpl. unfold Sprintf_s_d.
  rewrite app_assoc_string. by replace (j + 1) with (S j) by lia.
Qed.

(** How a file name of the specification is built. *)
Lemma spec_kind_filenames_elem (prefix kind ext : string) (n : nat) (x : string) :
  x ∈ spec_kind_filenames prefix kind ext n →
  ∃ index : nat, x = prefix +:+ kind +:+ "-" +:+ pretty index +:+ ext.
Proof.
  unfold spec_kind_filenames.
  intros (index & -> & _)%list_elem_of_fmap. by exists index.
Qed.

(** Within a kind, the names are distinct: the numeral tells them apart. *)
Lemma spec_kind_filenames_NoDup (prefix kind ext : string) (n : nat) :
  NoDup (spec_kind_filenames prefix kind ext n).
Proof.
  unfold spec_kind_filenames. apply NoDup_fmap_2; [| apply NoDup_seq].
  intros i j H.
  do 3 apply String.app_inj in H.
  apply app_inv_tail_string in H. by apply (inj pretty) in H.
Qed.

(** Names of two different kinds differ: after the prefix, the kinds
    [push], [pr], [dispatch] and [issue-comment] part within two bytes. *)
Ltac distinct_kinds H1 H2 :=
  let i := fresh "i" in
  let j := fresh "j" in
  let H := fresh "H" in
  apply spec_kind_filenames_elem in H1 as (i & ->);
  apply spec_kind_filenames_elem in H2 as (j & H);
  apply String.app_inj in H;
  rewrite !app_cons_string in H;
  discriminate H.

Lemma spec_filenames_NoDup {PushC PullRequestC DispatchC IssueCommentC : Type}
    (ext : string) (m : Gha PushC PullRequestC DispatchC IssueCommentC)
    (prefix : string) :
  NoDup (spec_filenames ext m prefix).
Proof.
  unfold spec_filenames.
  repeat (apply NoDup_app; split; [apply spec_kind_filenames_NoDup |];
          split; [| try apply spec_kind_filenames_NoDup]).
  - intros x H1 [H2 | [H2 | H2]%elem_of_app]%elem_of_app.
    + distinct_kinds H1 H2.
    + distinct_kinds H1 H2.
    + distinct_kinds H1 H2.
  - intros x H1 [H2 | H2]%elem_of_app.
    + distinct_kinds H1 H2.
    + distinct_kinds H1 H2.
  - intros x H1 H2. distinct_kinds H1 H2.
Qed.

(** C2, as the code has it: [Gha.Config] renders the triggers kind after
    kind (push, pr, dispatch, issue-comment), each kind in registration
    order, under the names [<prefix><kind>-<index>.yml] with [index] the
    1-based position within the kind; the extension is [.yml] whatever
    [asJson] is, and [asJson] is handed on as the requested encoding.  No
    two names collide, within a kind or across kinds. *)
Theorem Gha_Config_filenames_yml {PushC PullRequestC DispatchC IssueCommentC : Type}
    (m : Gha PushC PullRequestC DispatchC IssueCommentC) (prefix : string) :
  Gha_Config_filenames m prefix = spec_filenames ".yml" m prefix
  ∧ (λ r : Rendering, r.1.1) <$> Gha_Config_renderings m prefix = registered m
  ∧ Forall (λ r : Rendering, r.2 = AsJson (g_Settings m))
           (Gha_Config_renderings m prefix)
  ∧ NoDup (Gha_Config_filenames m prefix).
Proof.
  assert (Gha_Config_filenames m prefix = spec_filenames ".yml" m prefix) as Hnames.
  { unfold Gha_Config_filenames, spec_filenames.
    rewrite Gha_Config_renderings_eq, !fmap_app.
    rewrite <- (kind_filenames "push" prefix (AsJson (g_Settings m))).
    rewrite <- (kind_filenames "pr" prefix (AsJson (g_Settings m))).
    rewrite <- (kind_filenames "dispatch" prefix (AsJson (g_Settings m))).
    rewrite <- (kind_filenames "issue-comment" prefix (AsJson (g_Settings m))).
    reflexivity. }
  split_and!.
  - exact Hnames.
  - rewrite Gha_Config_renderings_eq, !fmap_app. unfold registered.
    repeat f_equal; by apply fmap_imap_indep.
  - rewrite Gha_Config_renderings_eq, !Forall_app.
    split_and!; apply Forall_forall;
      by intros r (j & t & -> & _)%elem_of_lookup_imap.
  - rewrite Hnames. apply spec_filenames_NoDup.
Qed.

(** C2 as stated fails in JSON mode: the only push trigger of an aggregator
    with [asJson] set is rendered under [push-1.yml], not [push-1.json]. *)
Lemma Gha_Config_filenames_json_mode :
  let settings := mkSettings "" "latest" false false true "ubuntu-latest" in
  let p := mkPipeline "" "build --source=." [] None settings in
  let m : Gha unit unit unit unit := mkGha [mkTrigger p tt] [] [] [] settings in
  AsJson (g_Settings m) = true
  ∧ Gha_Config_filenames m "" = ["push-1.yml"]
  ∧ spec_filenames (spec_ext (AsJson (g_Settings m))) m "" = ["push-1.json"]
  ∧ Gha_Config_filenames m "" ≠ spec_filenames (spec_ext (AsJson (g_Settings m))) m "".
Proof.
  intros settings p m. split; [reflexivity |].
  split; [by vm_compute |]. split; [by vm_compute |].
  intros H. vm_compute in H. discriminate H.
Qed.

(** The scenario of the specification: two push triggers and one dispatch
    trigger give [push-1.yml], [push-2.yml] and [dispatch-1.yml]. *)
Example Gha_Config_filenames_scenario :
  let settings := mkSettings "" "latest" false false false "ubuntu-latest" in
  let p := mkPipeline "" "build --source=." [] None settings in
  let m : Gha unit unit unit unit :=
    mkGha [mkTrigger p tt; mkTrigger p tt] [] [mkTrigger p tt] [] settings in
  Gha_Config_filenames m "" = ["push-1.yml"; "push-2.yml"; "dispatch-1.yml"].
Proof. by vm_compute. Qed.

(** * Further properties of the code *)

(** ** The name of a pipeline *)

Lemma beforeSpace_no_space (s : string) :
  " "%char ∉ bytes (Strings.beforeSpace s).
Proof.
  induction s as [| c s IH]; simpl; [apply not_elem_of_nil |].
  destruct (decide (c = " "%char)); simpl; [apply not_elem_of_nil |].
  apply not_elem_of_cons. split; [congruence | done].
Qed.

Lemma beforeSpace_split (s : string) :
  ∃ rest, s = Strings.beforeSpace s +:+ rest
          ∧ (rest = "" ∨ ∃ r, rest = String " " r).
Proof.
  induction s as [| c s (rest & Hs & Hrest)]; simpl.
  - exists "". by split; [| left].
  - destruct (decide (c = " "%char)) as [-> | Hc].
    + exists (String " " s). split; [done | right; by exists s].
    + exists rest. rewrite app_cons_string, <- Hs. done.
Qed.

Lemma beforeSpace_unique (n rest : string) :
  " "%char ∉ bytes n →
  (rest = "" ∨ ∃ r, rest = String " " r) →
  Strings.beforeSpace (n +:+ rest) = n.
Proof.
  induction n as [| c n IH]; intros Hn Hrest.
  - rewrite app_nil_l_string. destruct Hrest as [-> | (r & ->)]; [done |].
    reflexivity.
  - rewrite app_cons_string. simpl in *.
    apply not_elem_of_cons in Hn as [Hc Hn].
    rewrite decide_False by congruence. f_equal. by apply IH.
Qed.

(** X1: [Name] is the command up to its first space: it holds no space, the
    command is the name alone or the name followed by a space and more, and
    no other text has these two properties.  An empty command, or one that
    starts with a space, has the empty name. *)
Theorem Name_first_word (p : Pipeline) (n : string) :
  Name p = n
  ↔ (" "%char ∉ bytes n)
    ∧ ∃ rest, p_Command p = n +:+ rest
              ∧ (rest = "" ∨ ∃ r, rest = String " " r).
Proof.
  unfold Name. split.
  - intros <-. split; [apply beforeSpace_no_space | apply beforeSpace_split].
  - intros (Hn & rest & -> & Hrest). by apply beforeSpace_unique.
Qed.

(** ** Every key of the environment *)

(** The value of any key in the environment of the execute step: the last
    group that assigns the key decides. *)
Lemma callDaggerEnv_lookup (p : Pipeline) (k : string) :
  callDaggerEnv p !! k
  = if decide (k ∈ githubContextEntries.*1)
    then foldl assign ∅ githubContextEntries !! k
    else if decide (k ∈ (cloudTokenEntries p).*1)
    then foldl assign ∅ (cloudTokenEntries p) !! k
    else if decide (k ∈ (moduleEntries p).*1)
    then foldl assign ∅ (moduleEntries p) !! k
    else if decide (k ∈ p_Secrets p) then Some (secretRef k)
    else if decide (k = "COMMAND")
    then Some ("dagger call -q " +:+ p_Command p)
    else None.
Proof.
  rewrite callDaggerEnv_entries. unfold allEntries.
  rewrite !(assoc_L (++)).
  rewrite lookup_assign_app. destruct (decide (k ∈ githubContextEntries.*1)); [done |].
  rewrite lookup_assign_app. destruct (decide (k ∈ (cloudTokenEntries p).*1)); [done |].
  rewrite lookup_assign_app. destruct (decide (k ∈ (moduleEntries p).*1)); [done |].
  rewrite lookup_assign_app, secretEntries_keys.
  destruct (decide (k ∈ p_Secrets p)) as [Hin | Hnotin].
  - apply lookup_assign_in.
    + by rewrite secretEntries_keys.
    + intros v' Hv'. by apply secretEntries_elem in Hv' as [_ ->].
  - unfold commandEntries, assign. cbn [foldl fst snd].
    destruct (decide (k = "COMMAND")) as [-> | Hne].
    + by rewrite lookup_insert_eq.
    + by rewrite lookup_insert_ne.
Qed.

Lemma not_cloudToken_key (p : Pipeline) (k : string) :
  k ≠ "DAGGER_CLOUD_TOKEN" → k ≠ "_EXPERIMENTAL_DAGGER_CLOUD_TOKEN" →
  k ∉ (cloudTokenEntries p).*1.
Proof. intros H1 H2 [? | ?]%cloudTokenEntries_keys; done. Qed.

Lemma not_module_key (p : Pipeline) (k : string) :
  k ≠ "DAGGER_MODULE" → k ∉ (moduleEntries p).*1.
Proof. intros H1 ?%moduleEntries_keys. done. Qed.

(** X2: the variable [COMMAND] holds [dagger call -q <command>] unless a
    secret is declared under the name [COMMAND]; it then holds the
    reference to that secret, and the command is lost. *)
Theorem callDaggerEnv_COMMAND (p : Pipeline) :
  callDaggerEnv p !! "COMMAND"
  = if decide ("COMMAND" ∈ p_Secrets p)
    then Some "${{ secrets.COMMAND }}"
    else Some ("dagger call -q " +:+ p_Command p).
Proof.
  rewrite callDaggerEnv_lookup.
  rewrite decide_False by apply COMMAND_not_github.
  rewrite decide_False by (by apply not_cloudToken_key).
  rewrite decide_False by (by apply not_module_key).
  destruct (decide ("COMMAND" ∈ p_Secrets p)); [done |].
  by rewrite decide_True.
Qed.

(** X3: with a module, [DAGGER_MODULE] holds the module, also when a secret
    bears that name; without one, [DAGGER_MODULE] is absent unless it is a
    declared secret, whose reference it then holds. *)
Theorem callDaggerEnv_DAGGER_MODULE (p : Pipeline) :
  callDaggerEnv p !! "DAGGER_MODULE"
  = if decide (p_Module p ≠ "") then Some (p_Module p)
    else if decide ("DAGGER_MODULE" ∈ p_Secrets p)
    then Some "${{ secrets.DAGGER_MODULE }}"
    else None.
Proof.
  rewrite callDaggerEnv_lookup.
  rewrite decide_False by apply DAGGER_MODULE_not_github.
  rewrite decide_False by (by apply not_cloudToken_key).
  unfold moduleEntries. destruct (decide (p_Module p ≠ "")) as [Hm | Hm].
  - rewrite decide_True by apply list_elem_of_here.
    unfold assign. cbn [foldl fst snd]. by rewrite lookup_insert_eq.
  - rewrite decide_False by apply not_elem_of_nil.
    destruct (decide ("DAGGER_MODULE" ∈ p_Secrets p)); [done |].
    by rewrite decide_False.
Qed.

(** X4: a declared secret reaches the environment as the reference
    [${{ secrets.<name> }}] under its own name, provided no later group
    assigns that name: it is not [DAGGER_MODULE] of a pipeline with a
    module, not a cloud-token variable of a pipeline with tracing, and not
    a [GITHUB_<KEY>] variable. *)
Theorem callDaggerEnv_secret (p : Pipeline) (secretName : string) :
  secretName ∈ p_Secrets p →
  secretName ∉ (moduleEntries p).*1 →
  secretName ∉ (cloudTokenEntries p).*1 →
  secretName ∉ githubVar <$> githubContextKeys →
  callDaggerEnv p !! secretName = Some ("${{ secrets." +:+ secretName +:+ " }}").
Proof.
  intros Hin Hm Ht Hg. rewrite callDaggerEnv_lookup.
  rewrite decide_False by (by rewrite githubContextEntries_keys).
  rewrite decide_False by exact Ht.
  rewrite decide_False by exact Hm.
  by rewrite decide_True by exact Hin.
Qed.

(** Two secrets of a pipeline with a module and with tracing. *)
Lemma callDaggerEnv_secret_witness :
  let p := {| p_Module := "ci"; p_Command := "build --source=.";
              p_Secrets := ["NPM_TOKEN"; "DOCKER_PASSWORD"];
              p_SparseCheckout := None;
              p_Settings := mkSettings "" "latest" false false false
                                       "ubuntu-latest" |} in
  callDaggerEnv p !! "DOCKER_PASSWORD" = Some "${{ secrets.DOCKER_PASSWORD }}".
Proof.
  intros p. apply (callDaggerEnv_secret p "DOCKER_PASSWORD").
  - by apply (bool_decide_unpack _); vm_compute.
  - by apply (bool_decide_unpack _); vm_compute.
  - by apply (bool_decide_unpack _); vm_compute.
  - by apply (bool_decide_unpack _); vm_compute.
Defined.


(** X6: the environment of the execute step depends on the command, the
    module, the tracing flag, the public token and the set of declared
    secrets only: the order of the secrets, their repetitions, and the other
    fields of the pipeline (runner, tool version, sparse checkout, engine
    stop, JSON mode) do not change it. *)
Theorem callDaggerEnv_secret_set (p1 p2 : Pipeline) :
  p_Command p1 = p_Command p2 →
  p_Module p1 = p_Module p2 →
  NoTraces (p_Settings p1) = NoTraces (p_Settings p2) →
  PublicToken (p_Settings p1) = PublicToken (p_Settings p2) →
  (∀ s, s ∈ p_Secrets p1 ↔ s ∈ p_Secrets p2) →
  callDaggerEnv p1 = callDaggerEnv p2.
Proof.
  intros Hc Hm Hnt Hpt Hs. apply map_eq. intros k.
  rewrite !callDaggerEnv_lookup.
  assert (cloudTokenEntries p1 = cloudTokenEntries p2) as ->
    by (unfold cloudTokenEntries; by rewrite Hnt, Hpt).
  assert (moduleEntries p1 = moduleEntries p2) as ->
    by (unfold moduleEntries; by rewrite Hm).
  rewrite Hc.
  destruct (decide (k ∈ p_Secrets p1)) as [H1 | H1];
    destruct (decide (k ∈ p_Secrets p2)) as [H2 | H2]; try done.
  - by apply Hs in H1.
  - by apply Hs in H2.
Qed.

(** Two pipelines with the same secrets in another order, one repeated, and
    different runners. *)
Lemma callDaggerEnv_secret_set_witness :
  callDaggerEnv {| p_Module := "ci"; p_Command := "test";
                   p_Secrets := ["A"; "B"; "A"];
                   p_SparseCheckout := None;
                   p_Settings := mkSettings "" "latest" false false false
                                            "ubuntu-latest" |}
  = callDaggerEnv {| p_Module := "ci"; p_Command := "test";
                     p_Secrets := ["B"; "A"];
                     p_SparseCheckout := Some ["docs"];
                     p_Settings := mkSettings "" "v0.13.0" false true true
                                              "macos-latest" |}.
Proof.
  apply callDaggerEnv_secret_set; try reflexivity.
  intros s. simpl. rewrite !elem_of_cons, !elem_of_nil. tauto.
Defined.

(** ** One pre-flight check *)

(** X7: a pipeline with a malformed secret name fails its check with the
    error that names the first such secret, and no container is run: the
    state of the runtime is left as it was. *)
Theorem Pipeline_Check_invalid_secret {Directory World : Type}
    (Sync : Container Directory → World → option error * World)
    (p : Pipeline) (repo : Directory) (w : World)
    (before after : list string) (bad : string) :
  p_Secrets p = before ++ bad :: after →
  Forall wellFormedName before →
  ¬ wellFormedName bad →
  Pipeline_Check Sync p repo w
  = (Some (errors_New ("invalid secret name: '" +:+ bad
             +:+ "' must contain only alphanumeric characters and underscores")),
     w).
Proof.
  intros Heq Hbefore Hbad. unfold Pipeline_Check.
  assert (checkSecretNames p = Some (invalidSecretName bad)) as ->; [| done].
  apply checkSecretNames_loop_Some. exists before, bad, after. done.
Qed.

(** The runtime that logs its commands has run none. *)
Lemma Pipeline_Check_invalid_secret_witness :
  Pipeline_Check (logging_Sync [])
    {| p_Module := "ci"; p_Command := "build";
       p_Secrets := ["NPM_TOKEN"; "npm-token"; ""];
       p_SparseCheckout := None;
       p_Settings := mkSettings "" "latest" false false false "ubuntu-latest" |}
    tt []
  = (Some (errors_New "invalid secret name: 'npm-token' must contain only alphanumeric characters and underscores"),
     []).
Proof.
  apply (Pipeline_Check_invalid_secret (logging_Sync []) _ tt []
           ["NPM_TOKEN"] [""] "npm-token").
  - reflexivity.
  - constructor; [| constructor]. apply validName_wellFormed. reflexivity.
  - intros H%validName_wellFormed. discriminate H.
Defined.

(** X8: a pipeline whose secret names are all well formed is checked by
    one container run, and the check returns what that run returns: the
    container has the packages [dagger] and [bash], the repository mounted
    at [/src], the working directory [/src], privileged nesting, and the
    command [bash -c <script>]. *)
Theorem Pipeline_Check_dry_run {Directory World : Type}
    (Sync : Container Directory → World → option error * World)
    (p : Pipeline) (repo : Directory) (w : World) :
  Forall wellFormedName (p_Secrets p) →
  Pipeline_Check Sync p repo w
  = Sync {| Packages := ["dagger"; "bash"];
            MountedDirectory := ("/src", repo);
            Workdir := "/src";
            Exec := dryRunCommand p;
            ExperimentalPrivilegedNesting := true |} w.
Proof.
  intros Hs. unfold Pipeline_Check.
  apply checkSecretNames_loop_None in Hs. unfold checkSecretNames. rewrite Hs.
  unfold checkCommandAndModule, dryRunCommand.
  by destruct (Sync _ w) as [[err |] w'].
Qed.

Lemma Pipeline_Check_dry_run_witness :
  Pipeline_Check (logging_Sync [])
    {| p_Module := "ci"; p_Command := "build";
       p_Secrets := ["NPM_TOKEN"];
       p_SparseCheckout := None;
       p_Settings := mkSettings "" "latest" false false false "ubuntu-latest" |}
    tt []
  = (None, [["bash"; "-c"; "dagger call -m 'ci' build --help"]]).
Proof.
  rewrite Pipeline_Check_dry_run; [reflexivity |].
  constructor; [| constructor]. apply validName_wellFormed. reflexivity.
Defined.

(** ** The compiled document *)

(** What [asWorkflow] returns, in terms of the files of the module source:
    a panic when a script it needs is missing, the document around the steps
    otherwise.  The log of reads grows by the files asked for. *)
Lemma asWorkflow_result (p : Pipeline) (w : ModuleSource) :
  (asWorkflow p w).1
  = match files w !! "scripts/install-dagger.sh",
          files w !! "scripts/warm-engine.sh",
          files w !! "scripts/exec.sh" with
    | Some install, Some warm, Some exec =>
        let steps :=
          [checkoutStep p;
           scriptStep "install-dagger" install
             (Some {[ "DAGGER_VERSION" := DaggerVersion (p_Settings p) ]});
           scriptStep "warm-engine" warm None;
           scriptStep "exec" exec (Some (callDaggerEnv p))] in
        if StopEngine (p_Settings p) then
          match files w !! "scripts/scripts/stop-engine.sh.sh" with
          | Some stop =>
              Some (documentOf p
                      (steps ++ [scriptStep "scripts/stop-engine.sh" stop None]))
          | None => None
          end
        else Some (documentOf p steps)
    | _, _, _ => None
    end.
Proof.
  unfold asWorkflow, installDaggerStep, warmEngineStep, callDaggerStep,
    stopEngineStep, bashStep, bind, ret, Contents.
  cbn [fst snd files].
  change ("scripts/" +:+ "install-dagger" +:+ ".sh")
    with "scripts/install-dagger.sh".
  change ("scripts/" +:+ "warm-engine" +:+ ".sh") with "scripts/warm-engine.sh".
  change ("scripts/" +:+ "exec" +:+ ".sh") with "scripts/exec.sh".
  change ("scripts/" +:+ "scripts/stop-engine.sh" +:+ ".sh")
    with "scripts/scripts/stop-engine.sh.sh".
  destruct (files w !! "scripts/install-dagger.sh") as [install |]; [| done].
  cbn [fst snd files].
  destruct (files w !! "scripts/warm-engine.sh") as [warm |]; [| done].
  cbn [fst snd files].
  destruct (files w !! "scripts/exec.sh") as [exec |]; [| done].
  cbn [fst snd files].
  destruct (StopEngine (p_Settings p)); [| reflexivity].
  cbn [fst snd files].
  destruct (files w !! "scripts/scripts/stop-engine.sh.sh") as [stop |];
    reflexivity.
Qed.

(** X9: [asWorkflow] returns a document exactly when the module source has
    every script it reads: [scripts/install-dagger.sh],
    [scripts/warm-engine.sh], [scripts/exec.sh] and, when the engine is to be
    stopped, [scripts/scripts/stop-engine.sh.sh] (the step is built from the
    identifier [scripts/stop-engine.sh], to which [bashStep] adds the
    directory and the extension again); otherwise it panics. *)
Theorem asWorkflow_scripts (p : Pipeline) (w : ModuleSource) :
  is_Some (asWorkflow p w).1
  ↔ Forall (λ filename, is_Some (files w !! filename)) (scriptsRead p).
Proof.
  rewrite asWorkflow_result. unfold scriptsRead.
  rewrite Forall_app, !Forall_cons.
  destruct (files w !! "scripts/install-dagger.sh") as [install |];
    [| split; [by intros [? ?] | by intros [([? ?] & _) _]]].
  destruct (files w !! "scripts/warm-engine.sh") as [warm |];
    [| split; [by intros [? ?] | by intros [(_ & [? ?] & _) _]]].
  destruct (files w !! "scripts/exec.sh") as [exec |];
    [| split; [by intros [? ?] | by intros [(_ & _ & [? ?] & _) _]]].
  cbv zeta. destruct (StopEngine (p_Settings p)).
  - rewrite Forall_singleton.
    destruct (files w !! "scripts/scripts/stop-engine.sh.sh") as [stop |].
    + split; [| by eauto]. intros _. split_and!; by eauto.
    + split; [by intros [? ?] | by intros [_ [? ?]]].
  - split; [| by eauto]. intros _. split_and!; by eauto.
Qed.

(** The document of a compilation that has not panicked. *)
Lemma asWorkflow_Some_inv (p : Pipeline) (w : ModuleSource) (wf : Workflow) :
  (asWorkflow p w).1 = Some wf →
  ∃ install warm exec tail,
    files w !! "scripts/install-dagger.sh" = Some install
    ∧ files w !! "scripts/warm-engine.sh" = Some warm
    ∧ files w !! "scripts/exec.sh" = Some exec
    ∧ (if StopEngine (p_Settings p)
       then ∃ stop, files w !! "scripts/scripts/stop-engine.sh.sh" = Some stop
                    ∧ tail = [scriptStep "scripts/stop-engine.sh" stop None]
       else tail = [])
    ∧ wf = documentOf p
             ([checkoutStep p;
               scriptStep "install-dagger" install
                 (Some {[ "DAGGER_VERSION" := DaggerVersion (p_Settings p) ]});
               scriptStep "warm-engine" warm None;
               scriptStep "exec" exec (Some (callDaggerEnv p))] ++ tail).
Proof.
  rewrite asWorkflow_result.
  destruct (files w !! "scripts/install-dagger.sh") as [install |]; [| done].
  destruct (files w !! "scripts/warm-engine.sh") as [warm |]; [| done].
  destruct (files w !! "scripts/exec.sh") as [exec |]; [| done].
  cbv zeta. destruct (StopEngine (p_Settings p)).
  - destruct (files w !! "scripts/scripts/stop-engine.sh.sh") as [stop |];
      [| done].
    intros [= <-]. exists install, warm, exec, [scriptStep "scripts/stop-engine.sh" stop None].
    split_and!; try reflexivity. by exists stop.
  - intros [= <-]. exists install, warm, exec, []. split_and!; reflexivity.
Qed.

Lemma checkoutStep_fields (p : Pipeline) :
  js_Name (checkoutStep p) = "Checkout" ∧ js_ID (checkoutStep p) = ""
  ∧ js_Uses (checkoutStep p) = "actions/checkout@v4"
  ∧ js_Shell (checkoutStep p) = "" ∧ js_Run (checkoutStep p) = ""
  ∧ js_Env (checkoutStep p) = None.
Proof. unfold checkoutStep. by destruct (p_SparseCheckout p). Qed.

(** X10: a compiled document bears the whole command as its name, has no
    trigger, and has the single job [dagger] on the pipeline's runner.  The
    job's steps are the checkout step followed by one step per script read,
    in the order read: each is named after its file and runs the content
    of that file. *)
Theorem asWorkflow_document (p : Pipeline) (w : ModuleSource) (wf : Workflow) :
  (asWorkflow p w).1 = Some wf →
  w_Name wf = p_Command p
  ∧ w_On wf = noTriggers
  ∧ ∃ job, w_Jobs wf = {[ "dagger" := job ]}
           ∧ RunsOn job = Runner (p_Settings p)
           ∧ head (Steps job) = Some (checkoutStep p)
           ∧ js_Name <$> Steps job = "Checkout" :: scriptsRead p
           ∧ Some <$> (js_Run <$> drop 1 (Steps job))
             = (λ filename, files w !! filename) <$> scriptsRead p.
Proof.
  intros (install & warm & exec & tail & Hi & Hw & He & Htail & ->)%asWorkflow_Some_inv.
  split; [reflexivity |]. split; [reflexivity |].
  eexists. split; [reflexivity |]. split; [reflexivity |].
  split; [reflexivity |].
  destruct (checkoutStep_fields p) as (Hname & _).
  unfold scriptsRead. cbn [documentOf Steps].
  rewrite !fmap_app, !fmap_cons, Hname. cbn [drop app fmap list_fmap].
  rewrite Hi, Hw, He. cbn [scriptStep js_Name js_Run].
  destruct (StopEngine (p_Settings p)).
  - destruct Htail as (stop & Hs & ->). cbn [fmap list_fmap].
    rewrite Hs. split; reflexivity.
  - subst tail. split; reflexivity.
Qed.

Lemma asWorkflow_document_witness :
  let p := {| p_Module := "ci"; p_Command := "build --source=.";
              p_Secrets := ["NPM_TOKEN"]; p_SparseCheckout := Some ["docs"];
              p_Settings := mkSettings "" "latest" false true false
                                       "ubuntu-latest" |} in
  let w := {| files := list_to_map
                         [("scripts/install-dagger.sh", "install");
                          ("scripts/warm-engine.sh", "warm");
                          ("scripts/exec.sh", "exec");
                          ("scripts/scripts/stop-engine.sh.sh", "stop")];
              reads := [] |} in
  ∃ wf, (asWorkflow p w).1 = Some wf ∧ w_Name wf = "build --source=.".
Proof.
  intros p w.
  assert (∃ wf, (asWorkflow p w).1 = Some wf) as [wf Hwf]
    by (eexists; rewrite asWorkflow_result; reflexivity).
  exists wf. split; [exact Hwf |].
  exact (proj1 (asWorkflow_document p w wf Hwf)).
Defined.

(** X11: every step of a compiled document is of one of two kinds, never
    both: the checkout step, which uses the action [actions/checkout@v4] and
    has no shell, script, identifier or environment; or a script step, which
    uses no action, runs under [bash], takes no action input, and is named
    [scripts/<id>.sh] after its identifier.  The first step alone is of the
    first kind. *)
Theorem asWorkflow_step_kinds (p : Pipeline) (w : ModuleSource) (wf : Workflow) :
  (asWorkflow p w).1 = Some wf →
  ∃ job first rest,
    w_Jobs wf !! "dagger" = Some job
    ∧ Steps job = first :: rest
    ∧ (js_Uses first = "actions/checkout@v4" ∧ js_Shell first = ""
       ∧ js_Run first = "" ∧ js_ID first = "" ∧ js_Env first = None)
    ∧ Forall (λ step, js_Uses step = "" ∧ js_Shell step = "bash"
                      ∧ js_With step = None
                      ∧ js_Name step = "scripts/" +:+ js_ID step +:+ ".sh")
             rest.
Proof.
  intros (install & warm & exec & tail & Hi & Hw & He & Htail & ->)%asWorkflow_Some_inv.
  eexists _, _, _. split; [apply lookup_singleton_eq |].
  split; [reflexivity |].
  destruct (checkoutStep_fields p) as (_ & Hid & Huses & Hshell & Hrun & Henv).
  split; [done |].
  repeat (apply Forall_cons; split; [by repeat split |]).
  destruct (StopEngine (p_Settings p)).
  - destruct Htail as (stop & _ & ->).
    apply Forall_cons. split; [by repeat split | constructor].
  - subst tail. constructor.
Qed.

Lemma asWorkflow_step_kinds_witness :
  let p := {| p_Module := "ci"; p_Command := "build --source=.";
              p_Secrets := ["NPM_TOKEN"]; p_SparseCheckout := Some ["docs"];
              p_Settings := mkSettings "" "latest" false true false
                                       "ubuntu-latest" |} in
  let w := {| files := list_to_map
                         [("scripts/install-dagger.sh", "install");
                          ("scripts/warm-engine.sh", "warm");
                          ("scripts/exec.sh", "exec");
                          ("scripts/scripts/stop-engine.sh.sh", "stop")];
              reads := [] |} in
  ∃ wf job first rest,
    (asWorkflow p w).1 = Some wf
    ∧ w_Jobs wf !! "dagger" = Some job
    ∧ Steps job = first :: rest
    ∧ js_Uses first = "actions/checkout@v4".
Proof.
  intros p w.
  assert (∃ wf, (asWorkflow p w).1 = Some wf) as [wf Hwf]
    by (eexists; rewrite asWorkflow_result; reflexivity).
  destruct (asWorkflow_step_kinds p w wf Hwf)
    as (job & first & rest & Hjob & Hsteps & (Huses & _) & _).
  exists wf, job, first, rest.
  split; [exact Hwf |]. split; [exact Hjob |]. split; [exact Hsteps | exact Huses].
Defined.

(** X12: the outputs [stdout] and [stderr] of the job, and no other, are
    bound to the outputs of the step [exec]; the job has exactly one step
    with that identifier, the one that carries the environment of the
    execute step, also when the engine-stop step is present. *)
Theorem asWorkflow_exec_outputs (p : Pipeline) (w : ModuleSource) (wf : Workflow) :
  (asWorkflow p w).1 = Some wf →
  ∃ job exec,
    w_Jobs wf !! "dagger" = Some job
    ∧ filter (λ step, js_ID step = "exec") (Steps job) = [exec]
    ∧ js_Env exec = Some (callDaggerEnv p)
    ∧ js_Name exec = "scripts/exec.sh"
    ∧ Outputs job !! "stdout" = Some "${{ steps.exec.outputs.stdout }}"
    ∧ Outputs job !! "stderr" = Some "${{ steps.exec.outputs.stderr }}"
    ∧ size (Outputs job) = 2.
Proof.
  intros (install & warm & exec & tail & Hi & Hw & He & Htail & ->)%asWorkflow_Some_inv.
  eexists _, (scriptStep "exec" exec (Some (callDaggerEnv p))).
  split; [apply lookup_singleton_eq |].
  destruct (checkoutStep_fields p) as (_ & Hid & _).
  cbn [documentOf Steps Outputs].
  split.
  - rewrite filter_app, filter_cons_False by (by rewrite Hid).
    rewrite filter_cons_False by done. rewrite filter_cons_False by done.
    rewrite filter_cons_True by done. rewrite filter_nil.
    destruct (StopEngine (p_Settings p)).
    + destruct Htail as (stop & _ & ->).
      by rewrite filter_cons_False, filter_nil by done.
    + subst tail. by rewrite filter_nil.
  - split; [reflexivity |]. split; [reflexivity |].
    split; [by vm_compute |]. split; [by vm_compute |]. by vm_compute.
Qed.

Lemma asWorkflow_exec_outputs_witness :
  let p := {| p_Module := "ci"; p_Command := "build --source=.";
              p_Secrets := ["NPM_TOKEN"]; p_SparseCheckout := Some ["docs"];
              p_Settings := mkSettings "" "latest" false true false
                                       "ubuntu-latest" |} in
  let w := {| files := list_to_map
                         [("scripts/install-dagger.sh", "install");
                          ("scripts/warm-engine.sh", "warm");
                          ("scripts/exec.sh", "exec");
                          ("scripts/scripts/stop-engine.sh.sh", "stop")];
              reads := [] |} in
  ∃ wf job exec,
    (asWorkflow p w).1 = Some wf
    ∧ w_Jobs wf !! "dagger" = Some job
    ∧ filter (λ step, js_ID step = "exec") (Steps job) = [exec].
Proof.
  intros p w.
  assert (∃ wf, (asWorkflow p w).1 = Some wf) as [wf Hwf]
    by (eexists; rewrite asWorkflow_result; reflexivity).
  destruct (asWorkflow_exec_outputs p w wf Hwf)
    as (job & exec & Hjob & Hexec & _).
  exists wf, job, exec.
  split; [exact Hwf |]. split; [exact Hjob | exact Hexec].
Defined.

(** X13: the runner override given to the pipeline factory reaches the
    compiled job: the job runs on the override when it is not empty, and on
    the aggregator's runner otherwise; the document is named after the
    command given to the factory. *)
Theorem pipeline_asWorkflow_runner {PushC PullRequestC DispatchC IssueCommentC : Type}
    (m : Gha PushC PullRequestC DispatchC IssueCommentC)
    (command module runner : string) (secrets : list string)
    (sparseCheckout : option (list string))
    (w : ModuleSource) (wf : Workflow) :
  (asWorkflow (pipeline m command module runner secrets sparseCheckout) w).1
  = Some wf →
  w_Name wf = command
  ∧ ∃ job, w_Jobs wf !! "dagger" = Some job
           ∧ RunsOn job = if decide (runner = "")
                          then Runner (g_Settings m) else runner.
Proof.
  intros (install & warm & exec & tail & Hi & Hw & He & Htail & ->)%asWorkflow_Some_inv.
  unfold pipeline. destruct (decide (runner ≠ "")) as [Hne | He'].
  - rewrite decide_False by done. split; [reflexivity |].
    eexists. split; [apply lookup_singleton_eq | reflexivity].
  - apply dec_stable in He'. rewrite decide_True by done.
    split; [reflexivity |].
    eexists. split; [apply lookup_singleton_eq | reflexivity].
Qed.

Lemma pipeline_asWorkflow_runner_witness :
  let m : Gha unit unit unit unit :=
    New false "" "latest" false false "ubuntu-latest" in
  let w := {| files := list_to_map
                         [("scripts/install-dagger.sh", "install");
                          ("scripts/warm-engine.sh", "warm");
                          ("scripts/exec.sh", "exec")];
              reads := [] |} in
  ∃ wf job,
    (asWorkflow (pipeline m "test" "" "macos-latest" [] None) w).1 = Some wf
    ∧ w_Jobs wf !! "dagger" = Some job
    ∧ RunsOn job = "macos-latest".
Proof.
  intros m w.
  assert (∃ wf, (asWorkflow (pipeline m "test" "" "macos-latest" [] None) w).1
                = Some wf) as [wf Hwf]
    by (eexists; rewrite asWorkflow_result; reflexivity).
  destruct (pipeline_asWorkflow_runner m "test" "" "macos-latest" [] None w wf Hwf)
    as (_ & job & Hjob & Hrunner).
  exists wf, job.
  split; [exact Hwf |]. split; [exact Hjob | exact Hrunner].
Defined.

(** ** The lines of the sparse-checkout instruction *)

Lemma lines_no_newline (s : string) :
  ascii_of_nat 10 ∉ bytes s → lines s = [s].
Proof.
  induction s as [| c s IH]; simpl; [done |].
  intros [Hc Hs]%not_elem_of_cons.
  rewrite decide_False by congruence. by rewrite IH.
Qed.

Lemma lines_app_newline (e rest : string) :
  ascii_of_nat 10 ∉ bytes e →
  lines (e +:+ Strings.LF +:+ rest) = e :: lines rest.
Proof.
  induction e as [| c e IH]; intros He.
  - rewrite app_nil_l_string. unfold Strings.LF.
    rewrite app_cons_string, app_nil_l_string. reflexivity.
  - simpl in He. apply not_elem_of_cons in He as [Hc He].
    rewrite app_cons_string. simpl.
    rewrite decide_False by congruence. by rewrite IH.
Qed.

(** Cutting a joined list of newline-free texts gives the list back. *)
Lemma lines_Join (elems : list string) :
  elems ≠ [] →
  Forall (λ e, ascii_of_nat 10 ∉ bytes e) elems →
  lines (Strings.Join elems Strings.LF) = elems.
Proof.
  induction elems as [| e rest IH]; [done |]. intros _ Hall.
  apply Forall_cons in Hall as [He Hrest].
  destruct rest as [| e' rest].
  - simpl. by apply lines_no_newline.
  - change (Strings.Join (e :: e' :: rest) Strings.LF)
      with (e +:+ Strings.LF +:+ Strings.Join (e' :: rest) Strings.LF).
    rewrite lines_app_newline by done. f_equal. by apply IH.
Qed.

(** X14: when no user path holds a newline, the sparse-checkout instruction
    of the checkout step has one line per path: the user paths in their
    order, followed by [dagger.json], [.dagger], [dagger] and [ci]; with an
    empty list of user paths it has these four lines. *)
Theorem checkoutStep_lines (p : Pipeline) (paths : list string) :
  p_SparseCheckout p = Some paths →
  Forall (λ path, ascii_of_nat 10 ∉ bytes path) paths →
  lines <$> sparseCheckoutOf (checkoutStep p)
  = Some (paths ++ ["dagger.json"; ".dagger"; "dagger"; "ci"]).
Proof.
  intros Hp Hpaths. unfold sparseCheckoutOf, checkoutStep. rewrite Hp.
  simpl. rewrite lookup_singleton_eq. simpl. f_equal.
  apply lines_Join.
  - by destruct paths.
  - apply Forall_app. split; [done |].
    apply (bool_decide_unpack _). by vm_compute.
Qed.

Lemma checkoutStep_lines_witness :
  lines <$> sparseCheckoutOf
              (checkoutStep
                 {| p_Module := ""; p_Command := "build";
                    p_Secrets := []; p_SparseCheckout := Some ["docs"; "src/app"];
                    p_Settings := mkSettings "" "latest" false false false
                                             "ubuntu-latest" |})
  = Some ["docs"; "src/app"; "dagger.json"; ".dagger"; "dagger"; "ci"].
Proof.
  apply (checkoutStep_lines _ ["docs"; "src/app"]).
  - reflexivity.
  - apply (bool_decide_unpack _). by vm_compute.
Defined.

(** ** The containers a validation runs *)

Lemma Check_pipelines_commands (failing : list string) (ps : list Pipeline)
    (w : list (list string)) :
  ∃ ran,
    (Check_pipelines (logging_Sync failing) tt ps w).2
    = w ++ (dryRunCommand <$> ran)
    ∧ ran `prefix_of` ps
    ∧ ((Check_pipelines (logging_Sync failing) tt ps w).1 = None → ran = ps).
Proof.
  revert w. induction ps as [| p ps IH]; intros w.
  - exists []. simpl. by rewrite app_nil_r.
  - simpl. unfold Pipeline_Check.
    destruct (checkSecretNames p) as [err |].
    { exists []. simpl. rewrite app_nil_r. split_and!; [done | apply prefix_nil | done]. }
    unfold checkCommandAndModule.
    destruct (logging_Sync failing _ w) as [[err |] w'] eqn:E;
      unfold logging_Sync in E; cbn [Exec] in E;
      apply pair_equal_spec in E as [_ <-].
    { exists [p]. simpl. split_and!; [done | | done].
      by apply prefix_cons, prefix_nil. }
    destruct (IH (w ++ [["bash"; "-c"; checkCommandAndModule_script p]]))
      as (ran & Hlog & Hprefix & Hall).
    exists (p :: ran). split_and!.
    + rewrite Hlog, <- (assoc_L (++)). done.
    + by apply prefix_cons.
    + intros H. by rewrite Hall.
Qed.

(** X15: under a runtime that logs the command of every container it runs,
    [Gha.Check] adds to the log the dry-run commands [bash -c <script>] of
    an initial stretch of the registered pipelines, in registration order
    and once each, and nothing else; when it returns no error, that stretch
    is the whole list. *)
Theorem Gha_Check_commands {PushC PullRequestC DispatchC IssueCommentC : Type}
    (failing : list string)
    (m : Gha PushC PullRequestC DispatchC IssueCommentC)
    (w : list (list string)) :
  ∃ ran,
    (Gha_Check (logging_Sync failing) m tt w).2 = w ++ (dryRunCommand <$> ran)
    ∧ ran `prefix_of` registered m
    ∧ ((Gha_Check (logging_Sync failing) m tt w).1.2 = None
       → ran = registered m).
Proof.
  rewrite Gha_Check_pipelines. simpl. apply Check_pipelines_commands.
Qed.

(** ** The error of a malformed secret *)

(** X16: the error of [checkSecretNames] identifies the secret: two
    pipelines that fail with the same error have the same first malformed
    secret name. *)
Theorem checkSecretNames_error_names_secret (p1 p2 : Pipeline)
    (before1 after1 before2 after2 : list string) (bad1 bad2 : string) :
  p_Secrets p1 = before1 ++ bad1 :: after1 →
  Forall wellFormedName before1 → ¬ wellFormedName bad1 →
  p_Secrets p2 = before2 ++ bad2 :: after2 →
  Forall wellFormedName before2 → ¬ wellFormedName bad2 →
  checkSecretNames p1 = checkSecretNames p2 →
  bad1 = bad2.
Proof.
  intros H1 Hb1 Hbad1 H2 Hb2 Hbad2 Heq.
  assert (checkSecretNames p1 = Some (invalidSecretName bad1)) as E1.
  { apply checkSecretNames_loop_Some. exists before1, bad1, after1. done. }
  assert (checkSecretNames p2 = Some (invalidSecretName bad2)) as E2.
  { apply checkSecretNames_loop_Some. exists before2, bad2, after2. done. }
  rewrite E1, E2 in Heq. apply (inj Some) in Heq.
  by apply invalidSecretName_inj.
Qed.

Lemma checkSecretNames_error_names_secret_witness : "a-b" = "a-b".
Proof.
  apply (checkSecretNames_error_names_secret
           (mkPipeline "" "build" ["OK"; "a-b"] None
              (mkSettings "" "latest" false false false "ubuntu-latest"))
           (mkPipeline "ci" "test" ["a-b"; "c d"] None
              (mkSettings "" "latest" false false false "ubuntu-latest"))
           ["OK"] [] [] ["c d"] "a-b" "a-b").
  - reflexivity.
  - constructor; [| constructor]. apply validName_wellFormed. reflexivity.
  - intros H%validName_wellFormed. discriminate H.
  - reflexivity.
  - constructor.
  - intros H%validName_wellFormed. discriminate H.
  - reflexivity.
Defined.

(** ** What a compilation reads *)

(** X17: a compilation leaves the files of the module source as they are
    and asks for its scripts only: the reads it adds to the log are an
    initial stretch, never empty, of [scripts/install-dagger.sh],
    [scripts/warm-engine.sh], [scripts/exec.sh] and, when the engine is to
    be stopped, [scripts/scripts/stop-engine.sh.sh]; it stops at the first
    script that is missing, and when it returns a document it has read every
    script once, in this order. *)
Theorem asWorkflow_reads (p : Pipeline) (w : ModuleSource) :
  files (asWorkflow p w).2 = files w
  ∧ (∃ n, 0 < n
          ∧ reads (asWorkflow p w).2 = reads w ++ take n (scriptsRead p)
          ∧ Forall (λ filename, is_Some (files w !! filename))
                   (take (n - 1) (scriptsRead p)))
  ∧ (is_Some (asWorkflow p w).1 →
     reads (asWorkflow p w).2 = reads w ++ scriptsRead p).
Proof.
  unfold asWorkflow, installDaggerStep, warmEngineStep, callDaggerStep,
    stopEngineStep, bashStep, bind, ret, Contents, scriptsRead.
  cbn [fst snd files reads].
  change ("scripts/" +:+ "install-dagger" +:+ ".sh")
    with "scripts/install-dagger.sh".
  change ("scripts/" +:+ "warm-engine" +:+ ".sh") with "scripts/warm-engine.sh".
  change ("scripts/" +:+ "exec" +:+ ".sh") with "scripts/exec.sh".
  change ("scripts/" +:+ "scripts/stop-engine.sh" +:+ ".sh")
    with "scripts/scripts/stop-engine.sh.sh".
  destruct (files w !! "scripts/install-dagger.sh") as [install |] eqn:Hi;
    cbn [fst snd files reads].
  2: { split; [reflexivity |]. split; [| by intros [? ?]].
       exists 1. split; [lia |]. split; [reflexivity | constructor]. }
  destruct (files w !! "scripts/warm-engine.sh") as [warm |] eqn:Hw;
    cbn [fst snd files reads].
  2: { split; [reflexivity |]. split; [| by intros [? ?]].
       exists 2. split; [lia |]. rewrite <- !(assoc_L (++)).
       split; [reflexivity |]. repeat constructor. by rewrite Hi. }
  destruct (files w !! "scripts/exec.sh") as [exec |] eqn:He;
    cbn [fst snd files reads].
  2: { split; [reflexivity |]. split; [| by intros [? ?]].
       exists 3. split; [lia |]. rewrite <- !(assoc_L (++)).
       split; [reflexivity |]. repeat constructor; by rewrite ?Hi, ?Hw. }
  destruct (StopEngine (p_Settings p)); cbn [fst snd files reads].
  - destruct (files w !! "scripts/scripts/stop-engine.sh.sh") as [stop |] eqn:Hs;
      cbn [fst snd files reads]; rewrite <- !(assoc_L (++)).
    + split; [reflexivity |]. split; [| intros _; reflexivity].
      exists 4. split; [lia |]. split; [reflexivity |].
      repeat constructor; by rewrite ?Hi, ?Hw, ?He.
    + split; [reflexivity |]. split; [| by intros [? ?]].
      exists 4. split; [lia |]. split; [reflexivity |].
      repeat constructor; by rewrite ?Hi, ?Hw, ?He.
  - rewrite <- !(assoc_L (++)).
    split; [reflexivity |]. split; [| intros _; reflexivity].
    exists 3. split; [lia |]. split; [reflexivity |].
    repeat constructor; by rewrite ?Hi, ?Hw.
Qed.

(** ** An aggregator without triggers *)

Lemma registered_nil {PushC PullRequestC DispatchC IssueCommentC : Type}
    (m : Gha PushC PullRequestC DispatchC IssueCommentC) :
  registered m = [] →
  PushTriggers m = [] ∧ PullRequestTriggers m = []
  ∧ DispatchTriggers m = [] ∧ IssueCommentTriggers m = [].
Proof.
  unfold registered.
  intros (H1 & (H2 & (H3 & H4)%app_eq_nil)%app_eq_nil)%app_eq_nil.
  apply fmap_nil_inv in H1, H2, H3, H4. done.
Qed.

(** X18: for an aggregator with no registered trigger, such as the one
    [New] returns, [Gha.Check] succeeds without running a container,
    whatever the runtime, and [Gha.Config] returns the empty directory,
    whatever the directory implementation and the prefix. *)
Theorem Gha_no_trigger
    {Directory World PushC PullRequestC DispatchC IssueCommentC : Type}
    (Sync : Container Directory → World → option error * World)
    (dag_Directory : Directory)
    (WithDirectory : Directory → string → Directory → Directory)
    (PushTrigger_Config : Trigger PushC → string → bool → Directory)
    (PullRequestTrigger_Config : Trigger PullRequestC → string → bool → Directory)
    (DispatchTrigger_Config : Trigger DispatchC → string → bool → Directory)
    (IssueCommentTrigger_Config : Trigger IssueCommentC → string → bool → Directory)
    (m : Gha PushC PullRequestC DispatchC IssueCommentC)
    (repo : Directory) (w : World) (prefix : string) :
  registered m = [] →
  Gha_Check Sync m repo w = ((m, None), w)
  ∧ Gha_Config dag_Directory WithDirectory PushTrigger_Config
      PullRequestTrigger_Config DispatchTrigger_Config
      IssueCommentTrigger_Config m prefix
    = dag_Directory.
Proof.
  intros (H1 & H2 & H3 & H4)%registered_nil.
  unfold Gha_Check, Gha_Config. by rewrite H1, H2, H3, H4.
Qed.

Lemma Gha_no_trigger_witness :
  let m : Gha unit unit unit unit :=
    New false "" "latest" false false "ubuntu-latest" in
  let Sync := λ (c : Container (list Rendering)) (w : list (list string)),
                (@None error, w ++ [Exec c]) in
  Gha_Check Sync m [] [] = ((m, None), [])
  ∧ Gha_Config_renderings m "ci-" = [].
Proof.
  intros m Sync.
  exact (Gha_no_trigger Sync [] (λ dir _ d, dir ++ d)
           recorded_Config recorded_Config recorded_Config recorded_Config
           m [] [] "ci-" eq_refl).
Defined.
